(** * regres: build and runtime statistics over a range of changelists

    A shallow embedding of [cmd/regres/main.go] and the properties of its
    driver [run], of the perturbation cycle [withTouchedGLES], of [trace] and
    of the stats parser inside [captureStats].

    The program is a sequential script around external collaborators (git,
    bazel, gapit, the file system).  The collaborators are gathered in a
    record [Env] of functions of the current [World]; the script itself is
    written with explicit state passing, one Rocq definition per Go function.
    Log output ([log.I], [log.W]) changes nothing the program later reads and
    is left out. *)

From Stdlib Require Import ZArith PrimFloat Uint63 Ascii String DecimalString.
From Stdlib Require DecimalPos.
From stdpp Require Import gmap strings list.

Open Scope string_scope.
Open Scope Z_scope.
Open Scope list_scope.

(** ** Text helpers *)

(** [%d] / [%v] of an integer: its decimal text. *)
Definition formatInt (z : Z) : string := NilEmpty.string_of_int (Z.to_int z).

Definition inRange (lo hi : N) (c : ascii) : bool :=
  ((lo <=? N_of_ascii c) && (N_of_ascii c <=? hi))%N.

(** The character classes of the pattern [([a-zA-Z]+):\s+([0-9]+)].
    In Go's RE2 syntax [\s] is the set [\t\n\f\r ]. *)
Definition isLetter (c : ascii) : bool := inRange 97 122 c || inRange 65 90 c.
Definition isDigit (c : ascii) : bool := inRange 48 57 c.
Definition isSpace (c : ascii) : bool :=
  let n := N_of_ascii c in
  ((n =? 9) || (n =? 10) || (n =? 12) || (n =? 13) || (n =? 32))%N.

(** Longest prefix of [s] whose characters satisfy [p], and what follows. *)
Fixpoint span (p : ascii -> bool) (s : string) : string * string :=
  match s with
  | String c s' =>
      if p c then let '(a, b) := span p s' in (String c a, b) else ("", s)
  | EmptyString => ("", "")
  end.

Module Regexp.

(** A match of [([a-zA-Z]+):\s+([0-9]+)] anchored at the head of [s]:
    the submatch slice [whole; word; digits].  Each repetition is greedy
    and is followed by a character outside its own class (or by the end of
    the match), so the only candidate is the one made of the maximal
    runs. *)
Definition matchHere (s : string) : option (list string) :=
  let '(word, r1) := span isLetter s in
  match word, r1 with
  | String _ _, String ":" r2 =>
      let '(ws, r3) := span isSpace r2 in
      let '(ds, _) := span isDigit r3 in
      match ws, ds with
      | String _ _, String _ _ => Some [word +:+ ":" +:+ ws +:+ ds; word; ds]
      | _, _ => None
      end
  | _, _ => None
  end.

(** Leftmost, non-overlapping matches, left to right.  [skip] counts the
    characters of the previous match that are still to be stepped over. *)
Fixpoint findAllFrom (skip : nat) (s : string) : list (list string) :=
  match s with
  | EmptyString => []
  | String _ s' =>
      match skip with
      | S k => findAllFrom k s'
      | O =>
          match matchHere s with
          | Some m => m :: findAllFrom (String.length (hd "" m) - 1) s'
          | None => findAllFrom 0 s'
          end
      end
  end.

(** [re.FindAllStringSubmatch(s, -1)]. *)
Definition FindAllStringSubmatch (s : string) : list (list string) :=
  findAllFrom 0 s.

End Regexp.

Module Strconv.

(** Bit size of Go's [int] on the 64-bit hosts the tool is built for. *)
Definition intSize : Z := 64.
Definition maxInt : Z := 2 ^ (intSize - 1) - 1.
Definition minInt : Z := - 2 ^ (intSize - 1).

Definition digitVal (c : ascii) : Z := Z.of_N (N_of_ascii c) - 48.

(** Value of a non-empty run of decimal digits; [None] on any other
    character. *)
Fixpoint digits (acc : Z) (s : string) : option Z :=
  match s with
  | EmptyString => Some acc
  | String c s' =>
      if isDigit c then digits (10 * acc + digitVal c) s' else None
  end.

(** [strconv.Atoi]: an optional sign, then decimal digits; a syntax error
    or a value outside the range of [int] is an error. *)
Definition Atoi (s : string) : string + Z :=
  let '(neg, body) :=
    match s with
    | String "-" r => (true, r)
    | String "+" r => (false, r)
    | _ => (false, s)
    end in
  match body with
  | EmptyString => inl "invalid syntax"
  | _ =>
      match digits 0 body with
      | None => inl "invalid syntax"
      | Some n =>
          let v := if neg then - n else n in
          if (minInt <=? v) && (v <=? maxInt) then inr v
          else inl "value out of range"
      end
  end.

End Strconv.

(** ** The counter scan of [captureStats] *)

(** The three named results [numFrames], [numDraws], [numCmds]. *)
Record Counters := { numFrames : Z; numDraws : Z; numCmds : Z }.

Definition zeroCounters : Counters :=
  {| numFrames := 0; numDraws := 0; numCmds := 0 |}.

(** One turn of the [for _, matches := range ...] loop. *)
Definition scanStep (acc : Counters) (matches : list string) : Counters :=
  if negb (Nat.eqb (length matches) 3) then acc
  else
    match Strconv.Atoi (nth 2 matches "") with
    | inl _ => acc
    | inr n =>
        let word := nth 1 matches "" in
        if String.eqb word "Frames" then
          {| numFrames := n; numDraws := numDraws acc; numCmds := numCmds acc |}
        else if String.eqb word "Draws" then
          {| numFrames := numFrames acc; numDraws := n; numCmds := numCmds acc |}
        else if String.eqb word "Commands" then
          {| numFrames := numFrames acc; numDraws := numDraws acc; numCmds := n |}
        else acc
    end.

Definition scanMatches (ms : list (list string)) (acc : Counters) : Counters :=
  fold_left scanStep ms acc.

(** The part of [captureStats] after a successful call: the counters read
    from the stats text. *)
Definition scanCounters (stdout : string) : Counters :=
  scanMatches (Regexp.FindAllStringSubmatch stdout) zeroCounters.

(** ** Data *)

Definition error : Type := string.

(** [time.Duration]: a count of nanoseconds. *)
Definition Duration : Type := Z.

Definition float64_of_int (z : Z) : float :=
  if z <? 0 then PrimFloat.opp (PrimFloat.of_uint63 (Uint63.of_Z (- z)))
  else PrimFloat.of_uint63 (Uint63.of_Z z).

(** [Duration.Seconds]: whole seconds plus the nanosecond remainder over
    [1e9], with Go's truncating [/] and [%]. *)
Definition Seconds (d : Duration) : float :=
  PrimFloat.add (float64_of_int (Z.quot d 1000000000))
                (PrimFloat.div (float64_of_int (Z.rem d 1000000000)) 1e9%float).

Module Git.

(** Modelled from the spec: the revision identifier [git.SHA], declared in
    the package core/git.  It is kept as the text its [String] method
    gives, 40 hexadecimal digits, so that the slice [[:6]] of [run] is
    always in range. *)
Definition SHA : Type := string.

(** An entry of the revision listing: [{revision, subject}]. *)
Record ChangeList := { cl_SHA : SHA; Subject : string }.

(** What the working tree is on: a branch, or a revision checked out by
    its hash. *)
Inductive Head :=
| OnBranch (name : string)
| Detached (sha : SHA).

End Git.

Record FileSizesT := {
  LibGAPII : Z;
  LibVkLayerVirtualSwapchain : Z;
  GAPIDAarch64APK : Z;
  GAPIDArmeabi64APK : Z;
  GAPIDX86APK : Z;
  GAPID : Z;
  GAPIR : Z;
  GAPIS : Z;
  GAPIT : Z
}.

Record CaptureStatsT := { Frames : Z; DrawCalls : Z; Commands : Z }.

Record stats := {
  SHA : string;
  BuildTime : float;
  IncrementalBuildTime : float;
  FileSizes : FileSizesT;
  CaptureStats : CaptureStatsT
}.

(** The composite literal [stats{SHA: sha}]: every other field at its zero
    value. *)
Definition newStats (sha : string) : stats :=
  {| SHA := sha;
     BuildTime := 0%float;
     IncrementalBuildTime := 0%float;
     FileSizes := Build_FileSizesT 0 0 0 0 0 0 0 0 0;
     CaptureStats := Build_CaptureStatsT 0 0 0 |}.

Definition setFileSizes (fs : FileSizesT) (r : stats) : stats :=
  {| SHA := SHA r; BuildTime := BuildTime r;
     IncrementalBuildTime := IncrementalBuildTime r;
     FileSizes := fs; CaptureStats := CaptureStats r |}.

Definition setCaptureStats (c : CaptureStatsT) (r : stats) : stats :=
  {| SHA := SHA r; BuildTime := BuildTime r;
     IncrementalBuildTime := IncrementalBuildTime r;
     FileSizes := FileSizes r; CaptureStats := c |}.

Definition setIncrementalBuildTime (t : float) (r : stats) : stats :=
  {| SHA := SHA r; BuildTime := BuildTime r;
     IncrementalBuildTime := t;
     FileSizes := FileSizes r; CaptureStats := CaptureStats r |}.

(** The nine [size *int64] targets of the artifact table of [run]: storing
    through the pointer sets one field of [r.FileSizes]. *)
Inductive SizeField :=
| PLibGAPII | PLibVkLayerVirtualSwapchain | PGAPIDAarch64APK
| PGAPIDArmeabi64APK | PGAPIDX86APK | PGAPID | PGAPIR | PGAPIS | PGAPIT.

Definition storeSize (p : SizeField) (v : Z) (r : stats) : stats :=
  let s := FileSizes r in
  let pick q old := match p, q with
    | PLibGAPII, PLibGAPII
    | PLibVkLayerVirtualSwapchain, PLibVkLayerVirtualSwapchain
    | PGAPIDAarch64APK, PGAPIDAarch64APK
    | PGAPIDArmeabi64APK, PGAPIDArmeabi64APK
    | PGAPIDX86APK, PGAPIDX86APK
    | PGAPID, PGAPID | PGAPIR, PGAPIR | PGAPIS, PGAPIS | PGAPIT, PGAPIT => v
    | _, _ => old
    end in
  setFileSizes
    {| LibGAPII := pick PLibGAPII (LibGAPII s);
       LibVkLayerVirtualSwapchain :=
         pick PLibVkLayerVirtualSwapchain (LibVkLayerVirtualSwapchain s);
       GAPIDAarch64APK := pick PGAPIDAarch64APK (GAPIDAarch64APK s);
       GAPIDArmeabi64APK := pick PGAPIDArmeabi64APK (GAPIDArmeabi64APK s);
       GAPIDX86APK := pick PGAPIDX86APK (GAPIDX86APK s);
       GAPID := pick PGAPID (GAPID s);
       GAPIR := pick PGAPIR (GAPIR s);
       GAPIS := pick PGAPIS (GAPIS s);
       GAPIT := pick PGAPIT (GAPIT s) |} r.

(** The command-line flags. *)
Record Config := {
  root : string;
  verbose : bool;
  incBuild : bool;
  optimize : bool;
  pkg : string;
  output : string;
  atSHA : string;
  count : Z
}.

Definition setRoot (wd : string) (c : Config) : Config :=
  {| root := wd; verbose := verbose c; incBuild := incBuild c;
     optimize := optimize c; pkg := pkg c; output := output c;
     atSHA := atSHA c; count := count c |}.

(** ** The world outside the program *)

(** A file: its bytes and its mode bits. *)
Record File := { data : string; mode : Z }.

(** [shell.Cmd], with the fields the program sets. *)
Record Cmd := {
  Name : string;
  Args : list string;
  Verbosity : bool;
  Dir : string
}.

(** The commands the program sends to git and to child processes, in the
    order they happen.  What it does to files shows in [files]. *)
Inductive Event :=
| EvCheckout (sha : Git.SHA)
| EvCheckoutBranch (branch : string)
| EvCall (cmd : Cmd).

Record World := {
  head : Git.Head;
  files : gmap string File;
  events : list Event;
  rndCalls : nat;
  stdout : string
}.

Definition withHead (h : Git.Head) (w : World) : World :=
  {| head := h; files := files w; events := events w;
     rndCalls := rndCalls w; stdout := stdout w |}.

Definition withFiles (fs : gmap string File) (w : World) : World :=
  {| head := head w; files := fs; events := events w;
     rndCalls := rndCalls w; stdout := stdout w |}.

Definition emit (e : Event) (w : World) : World :=
  {| head := head w; files := files w; events := events w ++ [e];
     rndCalls := rndCalls w; stdout := stdout w |}.

Definition print (s : string) (w : World) : World :=
  {| head := head w; files := files w; events := events w;
     rndCalls := rndCalls w; stdout := stdout w +:+ s |}.

(** What a child process did: the files it left, its output, its exit
    status and the time it took. *)
Record CallResult := {
  callFiles : gmap string File;
  callStdout : string;
  callErr : option error;
  callTime : Duration
}.

(** The external collaborators.  Each answer may depend on the whole world
    at the moment of the call, the record of earlier actions included. *)
Record Env := {
  GOOS : string;                                   (* runtime.GOOS *)
  TempDir : string;                                (* os.TempDir() *)
  Join : list string -> string;                    (* filepath.Join *)
  Getwd : World -> error + string;                 (* os.Getwd *)
  canRead : Z -> bool;        (* may this process read a file of this mode *)
  canWrite : Z -> bool;       (* may it write one *)
  umask : Z;
  rndStream : nat -> Z;       (* the values of rnd.Int(), call by call *)
  formatFloat : float -> string;                   (* %v of a float64 *)
  tabwriter : string -> string;    (* text/tabwriter, the text it aligns *)
  Call : Cmd -> World -> CallResult;               (* shell.Cmd.Call *)
  gitNew : string -> World -> option error;
  gitStatus : World -> error + bool;
  gitCurrentBranch : World -> error + string;
  gitLogFrom : string -> Z -> World -> error + list Git.ChangeList;
  gitCheckoutErr : Git.SHA -> World -> option error;
  gitCheckoutBranchErr : string -> World -> option error;
  gitTree : Git.Head -> World -> gmap string File
}.

Definition TAB : string := String (ascii_of_nat 9) "".
Definition NL : string := String (ascii_of_nat 10) "".

(** ** File system and process primitives *)

Module Os.

(** [os.Stat]: the file as it is, or an error when there is none. *)
Definition Stat (path : string) (w : World) : error + File :=
  match files w !! path with
  | Some f => inr f
  | None => inl "no such file or directory"
  end.

(** [fi.Mode().Perm()]: the permission bits, [mode & 0777]. *)
Definition Perm (fi : File) : Z := Z.land (mode fi) 511.

(** [fi.Size()]. *)
Definition Size (fi : File) : Z := Z.of_nat (String.length (data fi)).

(** [ioutil.ReadFile]. *)
Definition ReadFile (E : Env) (path : string) (w : World) : error + string :=
  match files w !! path with
  | Some f => if canRead E (mode f) then inr (data f)
              else inl "permission denied"
  | None => inl "no such file or directory"
  end.

(** [ioutil.WriteFile]: opens with O_WRONLY|O_CREATE|O_TRUNC.  An existing
    file keeps its mode and gets the new bytes, if it may be written; a
    missing one is created with [perm] less the umask. *)
Definition WriteFile (E : Env) (path d : string) (perm : Z) (w : World)
  : World * option error :=
  match files w !! path with
  | Some f =>
      if canWrite E (mode f)
      then (withFiles (<[path := {| data := d; mode := mode f |}]> (files w)) w,
            None)
      else (w, Some "permission denied")
  | None =>
      (withFiles
         (<[path := {| data := d; mode := Z.ldiff perm (umask E) |}]> (files w)) w,
       None)
  end.

(** [os.Remove]. *)
Definition Remove (path : string) (w : World) : World * option error :=
  match files w !! path with
  | Some _ => (withFiles (delete path (files w)) w, None)
  | None => (w, Some "no such file or directory")
  end.

End Os.

(** [r.Int()] on the generator [rnd] of [run]. *)
Definition rndInt (E : Env) (w : World) : Z * World :=
  (rndStream E (rndCalls w),
   {| head := head w; files := files w; events := events w;
      rndCalls := S (rndCalls w); stdout := stdout w |}).

(** [cmd.Call(ctx)]: run the child process; the world takes the files it
    left. *)
Definition callCmd (E : Env) (cmd : Cmd) (w : World)
  : World * (string * option error * Duration) :=
  let r := Call E cmd w in
  (emit (EvCall cmd) (withFiles (callFiles r) w),
   (callStdout r, callErr r, callTime r)).

(** Modelled from the spec: the version-control collaborator of the package
    core/git, whose code is not part of this program.  [checkout(revision)]
    may fail and then changes nothing; otherwise the working tree is on that
    revision.  Checking out a branch makes it the active branch. *)
Definition gitCheckout (E : Env) (sha : Git.SHA) (w : World)
  : World * option error :=
  match gitCheckoutErr E sha w with
  | Some e => (emit (EvCheckout sha) w, Some e)
  | None =>
      (emit (EvCheckout sha)
         (withHead (Git.Detached sha)
            (withFiles (gitTree E (Git.Detached sha) w) w)),
       None)
  end.

(** Modelled from the spec: [g.CheckoutBranch] of the same package, under
    the same contract [checkout -> error]: it may fail and then changes
    nothing; otherwise the named branch becomes the active one. *)
Definition gitCheckoutBranch (E : Env) (branch : string) (w : World)
  : World * option error :=
  match gitCheckoutBranchErr E branch w with
  | Some e => (emit (EvCheckoutBranch branch) w, Some e)
  | None =>
      (emit (EvCheckoutBranch branch)
         (withHead (Git.OnBranch branch)
            (withFiles (gitTree E (Git.OnBranch branch) w) w)),
       None)
  end.

(** ** The functions of main.go *)

Definition dllExt (E : Env) (n : string) : string :=
  if String.eqb (GOOS E) "windows" then n +:+ ".dll"
  else if String.eqb (GOOS E) "darwin" then n +:+ ".dylib"
  else n +:+ ".so".

Definition exeExt (E : Env) (n : string) : string :=
  if String.eqb (GOOS E) "windows" then n +:+ ".exe" else n.

Definition gapitPath (E : Env) (cfg : Config) : string :=
  Join E [root cfg; "bazel-bin"; "pkg"; exeExt E "gapit"].

Definition build (E : Env) (cfg : Config) (w : World)
  : World * (Duration * option error) :=
  let args := ["build"] in
  let args := if optimize cfg then args ++ ["-c"; "opt"] else args in
  let args := args ++ ["pkg"] in
  let cmd := {| Name := "bazel"; Args := args;
                Verbosity := verbose cfg; Dir := root cfg |} in
  let '(w1, (_, err, elapsed)) := callCmd E cmd w in
  (w1, (elapsed, err)).

Definition traceFile (E : Env) : string :=
  Join E [TempDir E; "gapid-regres.gfxtrace"].

(** The [shell.Cmd] literal of [trace]. *)
Definition traceCmd (E : Env) (cfg : Config) (file : string) : Cmd :=
  {| Name := gapitPath E cfg;
     Args := ["--log-style"; "raw"; "trace"; "--for"; "60s"; "--out"; file;
              pkg cfg];
     Verbosity := verbose cfg; Dir := "" |}.

Definition trace (E : Env) (cfg : Config) (w : World) : World * (error + string) :=
  let file := traceFile E in
  let cmd := traceCmd E cfg file in
  let '(w1, (_, err, _)) := callCmd E cmd w in
  match err with
  | Some e => let '(w2, _) := Os.Remove file w1 in (w2, inl e)
  | None => (w1, inr file)
  end.

(** The [shell.Cmd] literal of [captureStats]. *)
Definition statsCmd (E : Env) (cfg : Config) (file : string) : Cmd :=
  {| Name := gapitPath E cfg;
     Args := ["--log-style"; "raw"; "--log-level"; "error"; "stats"; file];
     Verbosity := verbose cfg; Dir := "" |}.

(** [captureStats].  The named result [err] receives the outcome of the
    call; the [err] of the conversion inside the loop is a variable of the
    loop body and leaves it alone, so the final bare [return] hands back the
    [err] of the call. *)
Definition captureStats (E : Env) (cfg : Config) (file : string) (w : World)
  : World * (Counters * option error) :=
  let cmd := statsCmd E cfg file in
  let '(w1, (out, err, _)) := callCmd E cmd w in
  match err with
  | Some _ => (w1, (zeroCounters, None))
  | None => (w1, (scanCounters out, err))
  end.

Definition glesAPIPath (E : Env) (cfg : Config) : string :=
  Join E [root cfg; "gapis"; "api"; "gles"; "gles.api"].

(** [withTouchedGLES].  The callback [f] is a closure; [S] is the type of
    the variables it captures and may assign. *)
Definition withTouchedGLES {S : Type} (E : Env) (cfg : Config)
    (f : S -> World -> S * World * option error) (s : S) (w : World)
  : S * World * option error :=
  let path := glesAPIPath E cfg in
  match Os.Stat path w with
  | inl e => (s, w, Some e)
  | inr fi =>
      match Os.ReadFile E path w with
      | inl e => (s, w, Some e)
      | inr glesAPI =>
          let '(n, w1) := rndInt E w in
          let modGlesAPI :=
            glesAPI +:+ NL +:+ "cmd void fake_cmd_" +:+ formatInt n
                    +:+ "() {}" +:+ NL in
          let '(w2, _) := Os.WriteFile E path modGlesAPI (Os.Perm fi) w1 in
          let '(s', w3, r) := f s w2 in
          (* defer ioutil.WriteFile(glesAPIPath, glesAPI, fi.Mode().Perm()) *)
          let '(w4, _) := Os.WriteFile E path glesAPI (Os.Perm fi) w3 in
          (s', w4, r)
      end
  end.

(** The artifact table of [run]: each path with the field its size goes to. *)
Definition artifacts (E : Env) (cfg : Config) : list (string * SizeField) :=
  let pkgDir := Join E [root cfg; "bazel-bin"; "pkg"] in
  [ (Join E [pkgDir; "lib"; dllExt E "libgapii"], PLibGAPII);
    (Join E [pkgDir; "lib"; dllExt E "libVkLayer_VirtualSwapchain"],
     PLibVkLayerVirtualSwapchain);
    (Join E [pkgDir; "gapid-aarch64.apk"], PGAPIDAarch64APK);
    (Join E [pkgDir; "gapid-armeabi.apk"], PGAPIDArmeabi64APK);
    (Join E [pkgDir; "gapid-x86.apk"], PGAPIDX86APK);
    (Join E [pkgDir; exeExt E "gapid"], PGAPID);
    (Join E [pkgDir; exeExt E "gapir"], PGAPIR);
    (Join E [pkgDir; exeExt E "gapis"], PGAPIS);
    (Join E [pkgDir; exeExt E "gapit"], PGAPIT) ].

(** "Gather file size build stats": a file that cannot be stat'ed leaves its
    field as it is. *)
Definition gatherFileSizes (E : Env) (cfg : Config) (r : stats) (w : World)
  : stats :=
  fold_left
    (fun r f =>
       match Os.Stat (fst f) w with
       | inl _ => r
       | inr fi => storeSize (snd f) (Os.Size fi) r
       end)
    (artifacts E cfg) r.

(** What the loop of [run] carries from one revision to the next: the
    records so far, and the trace files whose removal has been deferred to
    the return of [run] (latest first). *)
Record LoopState := { res : list stats; deferred : list string }.

Definition pushDefer (file : string) (st : LoopState) : LoopState :=
  {| res := res st; deferred := file :: deferred st |}.

Definition appendRes (r : stats) (st : LoopState) : LoopState :=
  {| res := res st ++ [r]; deferred := deferred st |}.

(** "Gather capture stats".  The answer [None] is the [continue] of the
    block: the revision is dropped. *)
Definition captureStage (E : Env) (cfg : Config) (r : stats) (st : LoopState)
    (w : World) : World * LoopState * option stats :=
  if String.eqb (pkg cfg) "" then (w, st, Some r)
  else
    match trace E cfg w with
    | (w1, inl _) => (w1, st, None)
    | (w1, inr file) =>
        let st := pushDefer file st in
        match captureStats E cfg file w1 with
        | (w2, (_, Some _)) => (w2, st, None)
        | (w2, (c, None)) =>
            (w2, st,
             Some (setCaptureStats
                     {| Frames := numFrames c; DrawCalls := numDraws c;
                        Commands := numCmds c |} r))
        end
    end.

(** The closure passed to [withTouchedGLES]; it captures the record [r]. *)
Definition incrementalBuild (E : Env) (cfg : Config) (r : stats) (w : World)
  : stats * World * option error :=
  let '(w1, (duration, err)) := build E cfg w in
  match err with
  | None => (setIncrementalBuildTime (Seconds duration) r, w1, None)
  | Some _ => (r, w1, None)
  end.

(** "Gather incremental build stats", then [res = append(res, r)]. *)
Definition incrementalStage (E : Env) (cfg : Config) (r : stats)
    (st : LoopState) (w : World) : World * LoopState :=
  if incBuild cfg then
    match withTouchedGLES E cfg (incrementalBuild E cfg) r w with
    | (_, w1, Some _) => (w1, st)
    | (r, w1, None) => (w1, appendRes r st)
    end
  else (w, appendRes r st).

(** The body of the loop for the range index [i0].  [inl] is the
    [return err] that leaves [run]. *)
Definition iteration (E : Env) (cfg : Config) (cls : list Git.ChangeList)
    (i0 : nat) (st : LoopState) (w : World) : World * (error + LoopState) :=
  let i := (length cls - 1 - i0)%nat in
  match cls !! i with
  | None => (w, inl "index out of range")
  | Some cl =>
      let sha := substring 0 6 (Git.cl_SHA cl) in
      let r := newStats sha in
      match gitCheckout E (Git.cl_SHA cl) w with
      | (w1, Some e) => (w1, inl e)
      | (w1, None) =>
          match build E cfg w1 with
          | (w2, (_, Some _)) => (w2, inr st)
          | (w2, (_, None)) =>
              let r := gatherFileSizes E cfg r w2 in
              match captureStage E cfg r st w2 with
              | (w3, st, None) => (w3, inr st)
              | (w3, st, Some r) => 
                  let '(w4, st) := incrementalStage E cfg r st w3 in
                  (w4, inr st)
              end
          end
      end
  end.

(** [for i := range cls]. *)
Fixpoint loop (E : Env) (cfg : Config) (cls : list Git.ChangeList)
    (idx : list nat) (st : LoopState) (w : World)
  : World * LoopState * option error :=
  match idx with
  | [] => (w, st, None)
  | i0 :: idx' =>
      match iteration E cfg cls i0 st w with
      | (w1, inl e) => (w1, st, Some e)
      | (w1, inr st1) => loop E cfg cls idx' st1 w1
      end
  end.

(** ** The report *)

Definition headerCell (name : string) : string := TAB +:+ " | " +:+ name.
Definition rowCell (v : string) : string := TAB +:+ "   " +:+ v +:+ ",".

Definition writeHeader (cfg : Config) (buf : string) : string :=
  let buf := buf +:+ "sha" in
  let buf := if incBuild cfg
             then buf +:+ headerCell "incremental_build_time" else buf in
  let buf := if String.eqb (pkg cfg) "" then buf
             else buf +:+ headerCell "commands" +:+ headerCell "draws"
                      +:+ headerCell "frames" in
  buf +:+ headerCell "lib_gapii" +:+ headerCell "lib_swapchain"
      +:+ headerCell "aarch64.apk" +:+ headerCell "armeabi64.apk"
      +:+ headerCell "x86.apk" +:+ headerCell "gapid" +:+ headerCell "gapir"
      +:+ headerCell "gapis" +:+ headerCell "gapit" +:+ NL.

(** The text one record adds to the table. *)
Definition rowText (E : Env) (cfg : Config) (r : stats) : string :=
  let s := FileSizes r in
  (SHA r +:+ ",")
  +:+ (if incBuild cfg
       then rowCell (formatFloat E (IncrementalBuildTime r)) else "")
  +:+ (if String.eqb (pkg cfg) "" then ""
       else rowCell (formatInt (Commands (CaptureStats r)))
            +:+ rowCell (formatInt (DrawCalls (CaptureStats r)))
            +:+ rowCell (formatInt (Frames (CaptureStats r))))
  +:+ rowCell (formatInt (LibGAPII s))
  +:+ rowCell (formatInt (LibVkLayerVirtualSwapchain s))
  +:+ rowCell (formatInt (GAPIDAarch64APK s))
  +:+ rowCell (formatInt (GAPIDArmeabi64APK s))
  +:+ rowCell (formatInt (GAPIDX86APK s))
  +:+ rowCell (formatInt (GAPID s))
  +:+ rowCell (formatInt (GAPIR s))
  +:+ rowCell (formatInt (GAPIS s))
  +:+ (TAB +:+ "   " +:+ formatInt (GAPIT s))
  +:+ NL.

(** [for _, r := range res]: what is written to the tabwriter. *)
Definition writeTable (E : Env) (cfg : Config) (rs : list stats) : string :=
  fold_left (fun buf r => buf +:+ rowText E cfg r) rs (writeHeader cfg "").

(** ** run *)

(** The deferred [os.Remove(file)] calls, latest first. *)
Definition runDeferred (ds : list string) (w : World) : World :=
  fold_left (fun w f => fst (Os.Remove f w)) ds w.

(** [run] from the statement after [defer g.CheckoutBranch(ctx, branch)] to
    its return, the deferred removals and the deferred [w.Flush] included. *)
Definition runOnBranch (E : Env) (cfg : Config) (w : World)
  : World * option error :=
  match gitLogFrom E (atSHA cfg) (count cfg) w with
  | inl e => (w, Some e)
  | inr cls =>
      match loop E cfg cls (seq 0 (length cls))
                 {| res := []; deferred := [] |} w with
      | (w1, st, Some e) => (runDeferred (deferred st) w1, Some e)
      | (w1, st, None) =>
          let w2 := print ("-----------------------" +:+ NL) w1 in
          let w3 := print (tabwriter E (writeTable E cfg (res st))) w2 in
          (runDeferred (deferred st) w3, None)
      end
  end.

(** The statements of [run] up to and including
    [branch, err := g.CurrentBranch(ctx)]: the root is taken from the
    working directory when the flag is empty, the tree must be clean, and
    the branch is recorded.  None of them changes the world. *)
Definition preflight (E : Env) (cfg : Config) (w : World)
  : error + (Config * string) :=
  let rooted : error + Config :=
    if String.eqb (root cfg) "" then
      match Getwd E w with
      | inl e => inl e
      | inr wd => inr (setRoot wd cfg)
      end
    else inr cfg in
  match rooted with
  | inl e => inl e
  | inr cfg =>
      match gitNew E (root cfg) w with
      | Some e => inl e
      | None =>
          match gitStatus E w with
          | inl e => inl e
          | inr clean =>
              if negb clean then
                inl "Local changes found. Please submit any changes and run again"
              else
                match gitCurrentBranch E w with
                | inl e => inl e
                | inr branch => inr (cfg, branch)
                end
          end
      end
  end.

Definition run (E : Env) (cfg : Config) (w : World) : World * option error :=
  match preflight E cfg w with
  | inl e => (w, Some e)
  | inr (cfg, branch) =>
      (* defer g.CheckoutBranch(ctx, branch): the error it returns is
         dropped *)
      let '(w1, r) := runOnBranch E cfg w in
      let '(w2, _) := gitCheckoutBranch E branch w1 in
      (w2, r)
  end.

(** * Vocabulary of the properties *)

(** Every character of [s] satisfies [p]. *)
Fixpoint allChars (p : ascii -> bool) (s : string) : bool :=
  match s with
  | EmptyString => true
  | String c s' => p c && allChars p s'
  end.

(** What the pattern [([a-zA-Z]+):\s+([0-9]+)] asks of a match with the
    submatches [word] and [ds]: letters, a colon, white space, digits, each
    run non-empty. *)
Definition matchesPattern (whole word ds : string) : Prop :=
  exists ws,
    whole = word +:+ ":" +:+ ws +:+ ds
    /\ word <> "" /\ ws <> "" /\ ds <> ""
    /\ allChars isLetter word = true
    /\ allChars isSpace ws = true
    /\ allChars isDigit ds = true.

(** The claim of the last occurrence, in the words of the specification: the
    number a match gives to the counter [name], when its word is [name] and
    its digits convert. *)
Definition assigned (name : string) (m : list string) : option Z :=
  if Nat.eqb (length m) 3 && String.eqb (nth 1 m "") name then
    match Strconv.Atoi (nth 2 m "") with
    | inr n => Some n
    | inl _ => None
    end
  else None.

(** The number of the last match that gives one to [name]. *)
Definition lastAssigned (name : string) (ms : list (list string)) : option Z :=
  last (omap (assigned name) ms).

(** The world in which [withTouchedGLES] runs its callback: one random
    number drawn, the watched file rewritten with the fake command. *)
Definition touched (E : Env) (cfg : Config) (fi : File) (w : World) : World :=
  let '(n, w1) := rndInt E w in
  fst (Os.WriteFile E (glesAPIPath E cfg)
         (data fi +:+ NL +:+ "cmd void fake_cmd_" +:+ formatInt n
                  +:+ "() {}" +:+ NL)
         (Os.Perm fi) w1).

(** A callback that leaves the watched file alone, counts its calls in the
    variable it captures, and reports a failure. *)
Definition failingCallback (s : nat) (w : World) : nat * World * option error :=
  (S s, w, Some "build failed").

(** The revision the range index [i0] stands for. *)
Definition revisionAt (cls : list Git.ChangeList) (i0 : nat)
  : option Git.ChangeList :=
  cls !! (length cls - 1 - i0)%nat.

(** Where the body of the loop stands when it enters "Gather capture
    stats": the record with its file sizes and the world after the full
    build.  [None] when the check-out or the build failed. *)
Definition beforeCapture (E : Env) (cfg : Config) (cls : list Git.ChangeList)
    (i0 : nat) (w : World) : option (stats * World) :=
  match revisionAt cls i0 with
  | None => None
  | Some cl =>
      match gitCheckout E (Git.cl_SHA cl) w with
      | (_, Some _) => None
      | (w1, None) =>
          match build E cfg w1 with
          | (_, (_, Some _)) => None
          | (w2, (_, None)) =>
              Some (gatherFileSizes E cfg
                      (newStats (substring 0 6 (Git.cl_SHA cl))) w2, w2)
          end
      end
  end.

(** Where it stands when it enters "Gather incremental build stats".
    [None] when the revision was dropped before. *)
Definition beforeIncremental (E : Env) (cfg : Config)
    (cls : list Git.ChangeList) (i0 : nat) (st : LoopState) (w : World)
  : option (stats * LoopState * World) :=
  match beforeCapture E cfg cls i0 w with
  | None => None
  | Some (r, w2) =>
      match captureStage E cfg r st w2 with
      | (_, _, None) => None
      | (w3, st1, Some r1) => Some (r1, st1, w3)
      end
  end.

(** The perturbation step does not fail: it is disabled, or the watched
    file is there and readable. *)
Definition perturbationPasses (E : Env) (cfg : Config) (w : World) : Prop :=
  incBuild cfg = false
  \/ exists fi, files w !! glesAPIPath E cfg = Some fi
                /\ canRead E (mode fi) = true.

(** The events that are commands to git. *)
Definition isGit (e : Event) : bool :=
  match e with EvCall _ => false | _ => true end.

(** The commands sent to git so far, oldest first. *)
Definition gitLog (w : World) : list Event := List.filter isGit (events w).

(** The revisions checked out by hash, oldest first. *)
Definition checkouts (evs : list Event) : list Git.SHA :=
  omap (fun e => match e with EvCheckout sha => Some sha | _ => None end) evs.

(** The branches checked out by name. *)
Definition branchCheckouts (evs : list Event) : list string :=
  omap (fun e => match e with EvCheckoutBranch b => Some b | _ => None end) evs.

(** The revisions the range indices [idx] stand for, in the order the loop
    takes them. *)
Definition revisionsAt (cls : list Git.ChangeList) (idx : list nat)
  : list Git.ChangeList :=
  omap (revisionAt cls) idx.

(** The short hash [run] puts in a record: [cl.SHA.String()[:6]]. *)
Definition shortSHA (cl : Git.ChangeList) : string :=
  substring 0 6 (Git.cl_SHA cl).

(** The word of a match is one of the three counter names. *)
Definition recognized (m : list string) : bool :=
  let word := nth 1 m "" in
  String.eqb word "Frames" || String.eqb word "Draws"
  || String.eqb word "Commands".

(** A counter value that a text can give: not negative and within [int]. *)
Definition counterInRange (n : Z) : Prop := 0 <= n <= Strconv.maxInt.

Definition notColon (c : ascii) : bool := negb (Ascii.eqb c ":").

(** The text [b] does not begin with a character of the class [p]. *)
Definition notStartingWith (p : ascii -> bool) (b : string) : Prop :=
  match b with
  | String c _ => p c = false
  | EmptyString => True
  end.

(** ** A concrete environment

    A small world to run the program in: a source tree with the watched
    file, a bazel and a gapit whose failures are chosen per scenario. *)

Module Demo.

Definition join (parts : list string) : string := String.concat "/" parts.

(** The owner bits of the mode decide. *)
Definition mayRead (m : Z) : bool := negb (Z.land m 256 =? 0).
Definition mayWrite (m : Z) : bool := negb (Z.land m 128 =? 0).

Definition hasArg (a : string) (cmd : Cmd) : bool :=
  existsb (String.eqb a) (Args cmd).

(** What the child processes do.  bazel leaves the gapit binary behind when
    it succeeds; [gapit trace] leaves its output file, a truncated one when
    it fails; [gapit stats] prints [statsText]. *)
Definition call (bazelFails traceFails statsFails : World -> bool)
    (statsText : string) (cmd : Cmd) (w : World) : CallResult :=
  if String.eqb (Name cmd) "bazel" then
    if bazelFails w then
      {| callFiles := files w; callStdout := ""; callErr := Some "exit status 1";
         callTime := 700000000 |}
    else
      {| callFiles :=
           <["/src/bazel-bin/pkg/gapit" := {| data := "ELF"; mode := 493 |}]>
             (files w);
         callStdout := ""; callErr := None; callTime := 1500000000 |}
  else if hasArg "trace" cmd then
    if traceFails w then
      {| callFiles :=
           <["/tmp/gapid-regres.gfxtrace" := {| data := "par"; mode := 420 |}]>
             (files w);
         callStdout := ""; callErr := Some "exit status 1"; callTime := 5 |}
    else
      {| callFiles :=
           <["/tmp/gapid-regres.gfxtrace" := {| data := "capture"; mode := 420 |}]>
             (files w);
         callStdout := ""; callErr := None; callTime := 60000000000 |}
  else
    if statsFails w then
      {| callFiles := files w; callStdout := ""; callErr := Some "exit status 1";
         callTime := 5 |}
    else
      {| callFiles := files w; callStdout := statsText; callErr := None;
         callTime := 5 |}.

Definition env (bazelFails traceFails statsFails : World -> bool)
    (statsText : string) (checkoutFails : Git.SHA -> bool)
    (log : list Git.ChangeList) : Env :=
  {| GOOS := "linux";
     TempDir := "/tmp";
     Join := join;
     Getwd := fun _ => inr "/src";
     canRead := mayRead;
     canWrite := mayWrite;
     umask := 18;
     rndStream := fun n => 4000 + Z.of_nat n;
     formatFloat := fun f => if PrimFloat.eqb f 0%float then "0" else "1.5";
     tabwriter := fun s => s;
     Call := call bazelFails traceFails statsFails statsText;
     gitNew := fun _ _ => None;
     gitStatus := fun _ => inr true;
     gitCurrentBranch := fun w =>
       match head w with
       | Git.OnBranch b => inr b
       | Git.Detached _ => inr "HEAD"
       end;
     gitLogFrom := fun _ n _ => inr (take (Z.to_nat n) log);
     gitCheckoutErr := fun sha _ =>
       if checkoutFails sha then Some "pathspec did not match" else None;
     gitCheckoutBranchErr := fun _ _ => None;
     gitTree := fun _ w => files w |}.

Definition never {A : Type} (_ : A) : bool := false.
Definition always {A : Type} (_ : A) : bool := true.

Definition cfg (inc : bool) (pkgName : string) (n : Z) : Config :=
  {| root := "/src"; verbose := false; incBuild := inc; optimize := false;
     pkg := pkgName; output := ""; atSHA := ""; count := n |}.

Definition glesFile : File := {| data := "api gles"; mode := 420 |}.

(** A clean tree on master, with the watched file in place. *)
Definition world : World :=
  {| head := Git.OnBranch "master";
     files := {[ "/src/gapis/api/gles/gles.api" := glesFile ]};
     events := []; rndCalls := 0; stdout := "" |}.

(** The same tree without the watched file. *)
Definition worldNoGles : World :=
  {| head := Git.OnBranch "master"; files := ∅;
     events := []; rndCalls := 0; stdout := "" |}.

(** The listing, newest first. *)
Definition log3 : list Git.ChangeList :=
  [ {| Git.cl_SHA := "cccccc3333"; Git.Subject := "third" |};
    {| Git.cl_SHA := "bbbbbb2222"; Git.Subject := "second" |};
    {| Git.cl_SHA := "aaaaaa1111"; Git.Subject := "first" |} ].

Definition start : LoopState := {| res := []; deferred := [] |}.

End Demo.

(** ** Vocabulary of the further properties *)

(** Reading through one of the nine [size *int64] pointers. *)
Definition loadSize (p : SizeField) (r : stats) : Z :=
  let s := FileSizes r in
  match p with
  | PLibGAPII => LibGAPII s
  | PLibVkLayerVirtualSwapchain => LibVkLayerVirtualSwapchain s
  | PGAPIDAarch64APK => GAPIDAarch64APK s
  | PGAPIDArmeabi64APK => GAPIDArmeabi64APK s
  | PGAPIDX86APK => GAPIDX86APK s
  | PGAPID => GAPID s
  | PGAPIR => GAPIR s
  | PGAPIS => GAPIS s
  | PGAPIT => GAPIT s
  end.

(** What a record must look like for the stages that are switched off:
    no incremental time without [-inc], no counters without [-pkg]. *)
Definition offStagesAtZero (cfg : Config) (r : stats) : Prop :=
  (incBuild cfg = false -> IncrementalBuildTime r = 0%float)
  /\ (pkg cfg = "" ->
      CaptureStats r = {| Frames := 0; DrawCalls := 0; Commands := 0 |}).

(** The loop state [run] starts from. *)
Definition emptyState : LoopState := {| res := []; deferred := [] |}.

(** The flags with another [-out]. *)
Definition setOutput (o : string) (c : Config) : Config :=
  {| root := root c; verbose := verbose c; incBuild := incBuild c;
     optimize := optimize c; pkg := pkg c; output := o;
     atSHA := atSHA c; count := count c |}.

(** A callback that only looks at a file: the variable it captures takes
    what it finds at [path]. *)
Definition observeFile (path : string) (_ : option File) (w : World)
  : option File * World * option error :=
  (files w !! path, w, None).

(** The text [withTouchedGLES] appends for the random number [n]. *)
Definition fakeCommand (n : Z) : string :=
  NL +:+ "cmd void fake_cmd_" +:+ formatInt n +:+ "() {}" +:+ NL.

(** The environment of [Demo] with local changes in the working tree. *)
Definition dirtyEnv : Env :=
  let E := Demo.env Demo.never Demo.never Demo.never "" Demo.never Demo.log3 in
  {| GOOS := GOOS E; TempDir := TempDir E; Join := Join E; Getwd := Getwd E;
     canRead := canRead E; canWrite := canWrite E; umask := umask E;
     rndStream := rndStream E; formatFloat := formatFloat E;
     tabwriter := tabwriter E; Call := Call E; gitNew := gitNew E;
     gitStatus := fun _ => inr false;
     gitCurrentBranch := gitCurrentBranch E; gitLogFrom := gitLogFrom E;
     gitCheckoutErr := gitCheckoutErr E;
     gitCheckoutBranchErr := gitCheckoutBranchErr E; gitTree := gitTree E |}.

(** The environment of [Demo] in which git cannot check a branch out (the
    index is locked, say), while revisions check out as before. *)
Definition stuckEnv : Env :=
  let E := Demo.env Demo.never Demo.never Demo.never "" Demo.never Demo.log3 in
  {| GOOS := GOOS E; TempDir := TempDir E; Join := Join E; Getwd := Getwd E;
     canRead := canRead E; canWrite := canWrite E; umask := umask E;
     rndStream := rndStream E; formatFloat := formatFloat E;
     tabwriter := tabwriter E; Call := Call E; gitNew := gitNew E;
     gitStatus := gitStatus E;
     gitCurrentBranch := gitCurrentBranch E; gitLogFrom := gitLogFrom E;
     gitCheckoutErr := gitCheckoutErr E;
     gitCheckoutBranchErr := fun _ _ => Some "unable to create index.lock";
     gitTree := gitTree E |}.

(** How often the character [c] occurs in [s]. *)
Fixpoint countChar (c : ascii) (s : string) : nat :=
  match s with
  | EmptyString => 0
  | String x s' => (if Ascii.eqb x c then 1 else 0) + countChar c s'
  end.

(** The cell separator of the table, and the number of cells that follow
    the first one in a line. *)
Definition tabChar : ascii := ascii_of_nat 9.
Definition cellsAfterFirst (line : string) : nat := countChar tabChar line.

(** The line terminator of the table. *)
Definition nlChar : ascii := ascii_of_nat 10.

(** The text [s] begins with [p]; it ends with [q]. *)
Definition beginsWith (p s : string) : Prop := exists t, s = p +:+ t.
Definition endsWith (q s : string) : Prop := exists t, s = t +:+ q.

(** The separator line [run] prints before the table. *)
Definition separatorLine : string := "-----------------------" +:+ NL.

(** * Properties *)

(** ** Text *)

Lemma append_cons (x : ascii) (a b : string) :
  String x a +:+ b = String x (a +:+ b).
Proof. reflexivity. Qed.

Lemma append_assoc (a b c : string) : (a +:+ b) +:+ c = a +:+ b +:+ c.
Proof. induction a as [|x a IH]; [done|]. by rewrite !append_cons, IH. Qed.

Lemma append_nil_r (a : string) : a +:+ "" = a.
Proof. induction a as [|x a IH]; [done|]. by rewrite append_cons, IH. Qed.

Lemma concat_cons (x : string) (l : list string) :
  String.concat "" (x :: l) = x +:+ String.concat "" l.
Proof. destruct l; [by rewrite append_nil_r | done]. Qed.

(** ** The stats parser *)

Lemma span_spec p s a b :
  span p s = (a, b) -> s = a +:+ b /\ allChars p a = true.
Proof.
  revert a b. induction s as [|c s IH]; intros a b; simpl.
  { by intros [= <- <-]. }
  destruct (p c) eqn:Hc.
  - destruct (span p s) as [a' b']. intros [= <- <-].
    destruct (IH a' b' eq_refl) as [-> Hall]. simpl. by rewrite Hc, Hall.
  - by intros [= <- <-].
Qed.

(** What [matchHere] finds is a match of the pattern at the head of the
    text, and its slice has the three entries [whole; word; digits]. *)
Lemma matchHere_sound s m :
  Regexp.matchHere s = Some m ->
  exists whole word ds rest,
    m = [whole; word; ds] /\ s = whole +:+ rest
    /\ matchesPattern whole word ds.
Proof.
  unfold Regexp.matchHere.
  destruct (span isLetter s) as [word r1] eqn:H1.
  destruct word as [|c word]; [done|].
  destruct r1 as [|colon r2]; [done|].
  destruct (Ascii.eqb_spec colon ":") as [->|Hne]; cycle 1.
  { by destruct colon as [[] [] [] [] [] [] [] []]. }
  destruct (span isSpace r2) as [ws r3] eqn:H2.
  destruct (span isDigit r3) as [ds r4] eqn:H3.
  destruct ws as [|c2 ws]; [done|]. destruct ds as [|c3 ds]; [done|].
  intros [= <-].
  destruct (span_spec _ _ _ _ H1) as [-> Hw].
  destruct (span_spec _ _ _ _ H2) as [-> Hs].
  destruct (span_spec _ _ _ _ H3) as [-> Hd].
  eexists _, _, _, r4. split; [reflexivity|]. split.
  - change (String ":" ?x) with (":" +:+ x). by rewrite !append_assoc.
  - exists (String c2 ws). by repeat split.
Qed.

(** So the test [len(matches) != 3] of the counter loop never fires. *)
Lemma FindAllStringSubmatch_length3 text :
  Forall (fun m => length m = 3%nat) (Regexp.FindAllStringSubmatch text).
Proof.
  unfold Regexp.FindAllStringSubmatch.
  cut (forall skip,
         Forall (fun m => length m = 3%nat) (Regexp.findAllFrom skip text));
    [by intros H|].
  induction text as [|c text IH]; intros skip; simpl; [constructor|].
  destruct skip as [|k]; [|apply IH].
  destruct (Regexp.matchHere (String c text)) as [m|] eqn:Hm; [|apply IH].
  constructor; [|apply IH].
  by destruct (matchHere_sound _ _ Hm) as (whole & word & ds & rest & -> & _).
Qed.

(** After a successful call, [captureStats] returns the counters scanned
    from the output of the stats executable. *)
Lemma captureStats_success E cfg file w :
  callErr (Call E (statsCmd E cfg file) w) = None ->
  snd (captureStats E cfg file w)
  = (scanCounters (callStdout (Call E (statsCmd E cfg file) w)), None).
Proof. unfold captureStats. simpl. by intros ->. Qed.

Lemma lastAssigned_snoc name ms m :
  lastAssigned name (ms ++ [m]) =
  match assigned name m with
  | Some n => Some n
  | None => lastAssigned name ms
  end.
Proof.
  unfold lastAssigned. rewrite omap_app. simpl.
  destruct (assigned name m) as [n|]; simpl.
  - apply last_snoc.
  - by rewrite app_nil_r.
Qed.

Lemma scanMatches_snoc ms m acc :
  scanMatches (ms ++ [m]) acc = scanStep (scanMatches ms acc) m.
Proof. unfold scanMatches. by rewrite fold_left_app. Qed.

Lemma scanStep_spec acc m :
  numFrames (scanStep acc m) = default (numFrames acc) (assigned "Frames" m)
  /\ numDraws (scanStep acc m) = default (numDraws acc) (assigned "Draws" m)
  /\ numCmds (scanStep acc m) = default (numCmds acc) (assigned "Commands" m).
Proof.
  unfold scanStep, assigned.
  generalize (nth 1 m "") (Strconv.Atoi (nth 2 m "")). intros word a.
  destruct (Nat.eqb (length m) 3); simpl; [| done].
  destruct a as [e|n]; simpl.
  - by repeat destruct (String.eqb _ _).
  - destruct (String.eqb_spec word "Frames") as [->|]; [done|].
    destruct (String.eqb_spec word "Draws") as [->|]; [done|].
    by destruct (String.eqb_spec word "Commands") as [->|].
Qed.

Lemma scanMatches_spec ms acc :
  numFrames (scanMatches ms acc)
    = default (numFrames acc) (lastAssigned "Frames" ms)
  /\ numDraws (scanMatches ms acc)
    = default (numDraws acc) (lastAssigned "Draws" ms)
  /\ numCmds (scanMatches ms acc)
    = default (numCmds acc) (lastAssigned "Commands" ms).
Proof.
  induction ms as [|m ms IH] using rev_ind; [done|].
  rewrite scanMatches_snoc, !lastAssigned_snoc.
  destruct (scanStep_spec (scanMatches ms acc) m) as (-> & -> & ->).
  destruct IH as (-> & -> & ->).
  by destruct (assigned "Frames" m), (assigned "Draws" m),
    (assigned "Commands" m).
Qed.



(** C10, as stated, fails: in the text below the name Frames occurs in two
    matches, the number of the second does not fit an [int], the conversion
    fails, the match is skipped, and the counter keeps the number of the
    first. *)
Lemma last_occurrence_overflow_counterexample :
  Regexp.FindAllStringSubmatch "Frames: 3 Frames: 99999999999999999999"
    = [ ["Frames: 3"; "Frames"; "3"];
        ["Frames: 99999999999999999999"; "Frames"; "99999999999999999999"] ]
  /\ Strconv.Atoi "99999999999999999999" = inl "value out of range"
  /\ numFrames (scanCounters "Frames: 3 Frames: 99999999999999999999") = 3.
Proof. repeat split; reflexivity. Qed.

(** C10, amended. For every stats text and each of the three names, the
    counter ends at the number of the last match with that name whose
    digits convert to an [int], matches before it being overwritten; it
    stays 0 when there is no such match. *)
Theorem last_convertible_occurrence_wins (text : string) :
  let ms := Regexp.FindAllStringSubmatch text in
  numFrames (scanCounters text) = default 0 (lastAssigned "Frames" ms)
  /\ numDraws (scanCounters text) = default 0 (lastAssigned "Draws" ms)
  /\ numCmds (scanCounters text) = default 0 (lastAssigned "Commands" ms).
Proof. apply (scanMatches_spec _ zeroCounters). Qed.

(** C9. [captureStats] returns a nil error whatever the file, the world and
    the outcome of the call; so in the capture block of [run], once the
    trace is taken, the revision is never dropped: the [continue] under
    [if err != nil] after [captureStats] cannot be reached. *)
Theorem captureStats_never_fails (E : Env) (cfg : Config) :
  (forall file w, snd (snd (captureStats E cfg file w)) = None)
  /\ (forall r st w,
        match trace E cfg w with
        | (_, inl _) => True
        | (w1, inr file) =>
            captureStage E cfg r st w =
              if String.eqb (pkg cfg) "" then (w, st, Some r)
              else
                let '(w2, (c, _)) := captureStats E cfg file w1 in
                (w2, pushDefer file st,
                 Some (setCaptureStats
                         {| Frames := numFrames c; DrawCalls := numDraws c;
                            Commands := numCmds c |} r))
        end).
Proof.
  assert (Herr : forall file w, snd (snd (captureStats E cfg file w)) = None).
  { intros file w. unfold captureStats.
    destruct (callCmd E _ w) as [w1 [[out err] t]].
    by destruct err. }
  split; [exact Herr|].
  intros r st w. destruct (trace E cfg w) as [w1 [e|file]] eqn:Ht; [done|].
  unfold captureStage. rewrite Ht.
  destruct (String.eqb (pkg cfg) ""); [done|].
  specialize (Herr file w1).
  destruct (captureStats E cfg file w1) as [w2 [c err]].
  simpl in Herr. by subst err.
Qed.

(** ** The perturbation cycle *)

Lemma withTouchedGLES_fails {S : Type} E cfg
    (f : S -> World -> S * World * option error) s w :
  (exists e, Os.Stat (glesAPIPath E cfg) w = inl e)
  \/ (exists e, Os.ReadFile E (glesAPIPath E cfg) w = inl e) ->
  exists e, withTouchedGLES E cfg f s w = (s, w, Some e).
Proof.
  unfold withTouchedGLES.
  intros [[e He]|[e He]].
  - rewrite He. eauto.
  - destruct (Os.Stat _ w); [eauto|]. rewrite He. eauto.
Qed.

Lemma withTouchedGLES_runs {S : Type} E cfg
    (f : S -> World -> S * World * option error) s w fi :
  files w !! glesAPIPath E cfg = Some fi ->
  canRead E (mode fi) = true ->
  withTouchedGLES E cfg f s w =
    let '(s', w3, r) := f s (touched E cfg fi w) in
    (s', fst (Os.WriteFile E (glesAPIPath E cfg) (data fi) (Os.Perm fi) w3), r).
Proof.
  intros Hfi Hrd. unfold withTouchedGLES, touched, Os.Stat, Os.ReadFile.
  rewrite Hfi, Hrd. simpl.
  destruct (Os.WriteFile E _ _ _ _) as [w2 e2]. simpl.
  destruct (f s w2) as [[s' w3] r].
  by destruct (Os.WriteFile E _ _ _ w3).
Qed.

(** Writing keeps the mode of a file that is there, and writing back the
    bytes a file had gives that file again. *)
Lemma WriteFile_existing E path d perm w fi :
  files w !! path = Some fi ->
  files (fst (Os.WriteFile E path d perm w)) !! path =
    Some (if canWrite E (mode fi) then {| data := d; mode := mode fi |} else fi).
Proof.
  intros Hfi. unfold Os.WriteFile. rewrite Hfi.
  destruct (canWrite E (mode fi)); simpl; [|done].
  by rewrite lookup_insert_eq.
Qed.

(** C5. The perturbation cycle is a round trip on the watched file: for
    every content and mode the file has before the cycle, and every callback
    that itself leaves the file as it finds it, whatever the callback
    returns (nil or an error), the file has the same content and the same
    mode after the cycle. *)
Theorem withTouchedGLES_restores_file {S : Type} (E : Env) (cfg : Config)
    (f : S -> World -> S * World * option error) (s : S) (w : World)
    (fi : File) :
  files w !! glesAPIPath E cfg = Some fi ->
  (forall s0 w0, files (snd (fst (f s0 w0))) !! glesAPIPath E cfg
                 = files w0 !! glesAPIPath E cfg) ->
  files (snd (fst (withTouchedGLES E cfg f s w))) !! glesAPIPath E cfg
    = Some fi.
Proof.
  intros Hfi Hframe.
  destruct (canRead E (mode fi)) eqn:Hrd.
  - rewrite (withTouchedGLES_runs E cfg f s w fi Hfi Hrd).
    specialize (Hframe s (touched E cfg fi w)).
    destruct (f s (touched E cfg fi w)) as [[s' w3] r]. simpl in *.
    assert (Ht : files (touched E cfg fi w) !! glesAPIPath E cfg =
                 Some (if canWrite E (mode fi)
                       then {| data := data fi +:+ NL +:+ "cmd void fake_cmd_"
                                         +:+ formatInt (rndStream E (rndCalls w))
                                         +:+ "() {}" +:+ NL;
                               mode := mode fi |}
                       else fi)).
    { unfold touched. simpl. by apply WriteFile_existing. }
    rewrite Ht in Hframe.
    rewrite (WriteFile_existing E _ _ _ w3 _ Hframe).
    destruct (canWrite E (mode fi)) eqn:Hwr; simpl.
    + rewrite Hwr. by destruct fi.
    + by rewrite Hwr.
  - destruct (withTouchedGLES_fails E cfg f s w) as [e ->]; [|done].
    right. unfold Os.ReadFile. rewrite Hfi, Hrd. eauto.
Qed.

Lemma withTouchedGLES_restores_file_witness :
  files Demo.world !! "/src/gapis/api/gles/gles.api" = Some Demo.glesFile
  /\ snd (withTouchedGLES
            (Demo.env Demo.never Demo.never Demo.never "" Demo.never Demo.log3)
            (Demo.cfg true "" 1) failingCallback 0%nat Demo.world)
     = Some "build failed"
  /\ files (snd (fst (withTouchedGLES
            (Demo.env Demo.never Demo.never Demo.never "" Demo.never Demo.log3)
            (Demo.cfg true "" 1) failingCallback 0%nat Demo.world)))
       !! "/src/gapis/api/gles/gles.api" = Some Demo.glesFile.
Proof.
  split; [reflexivity|]. split; [reflexivity|].
  apply (withTouchedGLES_restores_file
           (Demo.env Demo.never Demo.never Demo.never "" Demo.never Demo.log3)
           (Demo.cfg true "" 1) failingCallback 0%nat Demo.world Demo.glesFile).
  - reflexivity.
  - intros s0 w0. reflexivity.
Defined.

(** ** One revision *)

Lemma iteration_beforeCapture E cfg cls i0 st w r w2 :
  beforeCapture E cfg cls i0 w = Some (r, w2) ->
  iteration E cfg cls i0 st w =
    match captureStage E cfg r st w2 with
    | (w3, st, None) => (w3, inr st)
    | (w3, st, Some r) =>
        let '(w4, st) := incrementalStage E cfg r st w3 in (w4, inr st)
    end.
Proof.
  unfold beforeCapture, iteration, revisionAt.
  destruct (cls !! _) as [cl|]; [|done].
  destruct (gitCheckout E _ w) as [w1 [e|]]; [done|].
  destruct (build E cfg w1) as [w2' [d [e|]]]; [done|].
  by intros [= <- <-].
Qed.

Lemma iteration_beforeIncremental E cfg cls i0 st w r st1 w3 :
  beforeIncremental E cfg cls i0 st w = Some (r, st1, w3) ->
  iteration E cfg cls i0 st w =
    let '(w4, st) := incrementalStage E cfg r st1 w3 in (w4, inr st).
Proof.
  unfold beforeIncremental.
  destruct (beforeCapture E cfg cls i0 w) as [[r0 w2]|] eqn:Hb; [|done].
  rewrite (iteration_beforeCapture _ _ _ _ st _ _ _ Hb).
  destruct (captureStage E cfg r0 st w2) as [[w3' st1'] [r1|]]; [|done].
  by intros [= <- <- <-].
Qed.

(** The capture stage hands on the list of records it was given. *)
Lemma captureStage_res E cfg r st w :
  res (snd (fst (captureStage E cfg r st w))) = res st.
Proof.
  unfold captureStage.
  destruct (String.eqb (pkg cfg) ""); [done|].
  destruct (trace E cfg w) as [w1 [e|file]]; [done|].
  by destruct (captureStats E cfg file w1) as [w2 [c [e|]]].
Qed.

(** Nothing before the incremental stage sets the incremental build time. *)
Lemma gatherFileSizes_time E cfg r w :
  IncrementalBuildTime (gatherFileSizes E cfg r w) = IncrementalBuildTime r.
Proof.
  unfold gatherFileSizes. generalize (artifacts E cfg). intros l.
  revert r. induction l as [|f l IH]; intros r; [done|]. simpl.
  rewrite IH. by destruct (Os.Stat (fst f) w).
Qed.

Lemma beforeIncremental_time E cfg cls i0 st w r st1 w3 :
  beforeIncremental E cfg cls i0 st w = Some (r, st1, w3) ->
  IncrementalBuildTime r = 0%float /\ res st1 = res st.
Proof.
  unfold beforeIncremental, beforeCapture.
  destruct (revisionAt cls i0) as [cl|]; [|done].
  destruct (gitCheckout E _ w) as [w1 [e|]]; [done|].
  destruct (build E cfg w1) as [w2 [d [e|]]]; [done|].
  pose proof (captureStage_res E cfg
    (gatherFileSizes E cfg (newStats (substring 0 6 (Git.cl_SHA cl))) w2) st w2)
    as Hres.
  pose proof (gatherFileSizes_time E cfg
    (newStats (substring 0 6 (Git.cl_SHA cl))) w2) as Htime.
  revert Hres. unfold captureStage.
  destruct (String.eqb (pkg cfg) "").
  { simpl. intros _ [= <- <- <-]. by rewrite Htime. }
  destruct (trace E cfg w2) as [w3' [e|file]]; [done|].
  destruct (captureStats E cfg file w3') as [w4 [c [e|]]]; [done|].
  simpl. intros _ [= <- <- <-]. simpl. by rewrite Htime.
Qed.

(** C1, as stated, fails.  One revision, incremental timing on, no watched
    file in the tree: the check-out and the full build succeed, the stat of
    the watched file fails, and the loop ends with no record at all, where
    the claim has the revision appended. *)
Lemma perturbation_failure_counterexample :
  let E := Demo.env Demo.never Demo.never Demo.never "" Demo.never Demo.log3 in
  let cfg := Demo.cfg true "" 1 in
  let cls := take 1 Demo.log3 in
  incBuild cfg = true
  /\ (exists r st1 w3,
        beforeIncremental E cfg cls 0 Demo.start Demo.worldNoGles
          = Some (r, st1, w3)
        /\ Os.Stat (glesAPIPath E cfg) w3 = inl "no such file or directory")
  /\ snd (loop E cfg cls (seq 0 (length cls)) Demo.start Demo.worldNoGles)
       = None
  /\ res (snd (fst (loop E cfg cls (seq 0 (length cls)) Demo.start
                      Demo.worldNoGles))) = [].
Proof.
  split; [reflexivity|]. split.
  - eexists _, _, _. split; vm_compute; reflexivity.
  - split; vm_compute; reflexivity.
Qed.

(** C1, amended. With incremental timing enabled, if the perturbation step
    cannot stat or cannot read the watched file, the rebuild is not
    attempted and the revision is skipped: the iteration leaves the world
    and the list of records as they were when the step began, so nothing is
    appended for the revision. *)
Theorem perturbation_failure_skips_revision (E : Env) (cfg : Config)
    (cls : list Git.ChangeList) (i0 : nat) (st : LoopState) (w : World)
    (r : stats) (st1 : LoopState) (w3 : World) :
  beforeIncremental E cfg cls i0 st w = Some (r, st1, w3) ->
  incBuild cfg = true ->
  (exists e, Os.Stat (glesAPIPath E cfg) w3 = inl e)
  \/ (exists e, Os.ReadFile E (glesAPIPath E cfg) w3 = inl e) ->
  iteration E cfg cls i0 st w = (w3, inr st1) /\ res st1 = res st.
Proof.
  intros Hb Hinc Hfail.
  rewrite (iteration_beforeIncremental _ _ _ _ _ _ _ _ _ Hb).
  unfold incrementalStage. rewrite Hinc.
  destruct (withTouchedGLES_fails E cfg (incrementalBuild E cfg) r w3 Hfail)
    as [e ->].
  split; [done|]. by destruct (beforeIncremental_time _ _ _ _ _ _ _ _ _ Hb).
Qed.

Lemma perturbation_failure_skips_revision_witness :
  let E := Demo.env Demo.never Demo.never Demo.never "" Demo.never Demo.log3 in
  let cfg := Demo.cfg true "" 1 in
  exists w3,
    Os.Stat (glesAPIPath E cfg) w3 = inl "no such file or directory"
    /\ iteration E cfg (take 1 Demo.log3) 0 Demo.start Demo.worldNoGles
       = (w3, inr Demo.start).
Proof.
  intros E cfg. eexists. split; cycle 1.
  - eapply (perturbation_failure_skips_revision E cfg).
    + vm_compute. reflexivity.
    + reflexivity.
    + left. eexists. vm_compute. reflexivity.
  - vm_compute. reflexivity.
Defined.

(** X9. The other failure of the step is swallowed: when the watched file can
    be read and the rebuild fails, the callback still returns nil, the
    incremental build time stays at its zero default, and the record is
    appended. *)
Lemma rebuild_failure_swallowed E cfg cls i0 st w r st1 w3 fi e :
  beforeIncremental E cfg cls i0 st w = Some (r, st1, w3) ->
  incBuild cfg = true ->
  files w3 !! glesAPIPath E cfg = Some fi ->
  canRead E (mode fi) = true ->
  snd (snd (build E cfg (touched E cfg fi w3))) = Some e ->
  exists w4, iteration E cfg cls i0 st w = (w4, inr (appendRes r st1))
             /\ IncrementalBuildTime r = 0%float.
Proof.
  intros Hb Hinc Hfi Hrd Hbuild.
  rewrite (iteration_beforeIncremental _ _ _ _ _ _ _ _ _ Hb).
  unfold incrementalStage. rewrite Hinc.
  rewrite (withTouchedGLES_runs E cfg _ r w3 fi Hfi Hrd).
  unfold incrementalBuild.
  destruct (build E cfg (touched E cfg fi w3)) as [w4 [d err]].
  simpl in Hbuild. subst err. eexists. split; [done|].
  by destruct (beforeIncremental_time _ _ _ _ _ _ _ _ _ Hb).
Qed.

(** ** Trace capture and stats extraction *)





(** When the call of the stats executable fails, [captureStats] answers
    with zero counters and no error. *)
Lemma captureStats_call_failure E cfg file w e :
  callErr (Call E (statsCmd E cfg file) w) = Some e ->
  captureStats E cfg file w =
    (fst (callCmd E (statsCmd E cfg file) w), (zeroCounters, None)).
Proof. unfold captureStats. simpl. by intros ->. Qed.

Lemma incrementalStage_appends E cfg r st w :
  perturbationPasses E cfg w ->
  exists r' w',
    incrementalStage E cfg r st w = (w', appendRes r' st)
    /\ SHA r' = SHA r /\ FileSizes r' = FileSizes r
    /\ CaptureStats r' = CaptureStats r.
Proof.
  unfold incrementalStage. intros [->|(fi & Hfi & Hrd)]; [by eauto 6|].
  destruct (incBuild cfg); [|by eauto 6].
  rewrite (withTouchedGLES_runs E cfg _ r w fi Hfi Hrd).
  unfold incrementalBuild.
  destruct (build E cfg (touched E cfg fi w)) as [w1 [d [e|]]];
    simpl; by eauto 6.
Qed.

(** C8. When the invocation of the stats executable fails,
    [captureStats] returns frames 0, draws 0, commands 0 and a nil error,
    and the revision is still recorded: the capture block does not drop
    it but hands it on to the incremental stage with zero counters, and
    the iteration appends its record, with the zero counters, the hash and
    the sizes it had.  (The appending is that of a revision whose only
    failure is the stats call: the perturbation step that follows has its
    own policy, and passes when incremental timing is disabled or the
    watched file is there and readable.)  A trace failure, by contrast,
    drops the revision. *)
Theorem stats_failure_records_zeros (E : Env) (cfg : Config)
    (cls : list Git.ChangeList) (i0 : nat) (st : LoopState) (w : World)
    (r : stats) (w2 w3 : World) (file : string) (e : error) :
  beforeCapture E cfg cls i0 w = Some (r, w2) ->
  pkg cfg <> "" ->
  trace E cfg w2 = (w3, inr file) ->
  callErr (Call E (statsCmd E cfg file) w3) = Some e ->
  let w4 := fst (callCmd E (statsCmd E cfg file) w3) in
  let r0 := setCaptureStats {| Frames := 0; DrawCalls := 0; Commands := 0 |} r in
  captureStats E cfg file w3 = (w4, (zeroCounters, None))
  /\ beforeIncremental E cfg cls i0 st w = Some (r0, pushDefer file st, w4)
  /\ (perturbationPasses E cfg w4 ->
      exists r' w',
        iteration E cfg cls i0 st w
          = (w', inr (appendRes r' (pushDefer file st)))
        /\ CaptureStats r' = {| Frames := 0; DrawCalls := 0; Commands := 0 |}
        /\ SHA r' = SHA r /\ FileSizes r' = FileSizes r).
Proof.
  intros Hb Hpkg Htrace Hcall w4 r0.
  pose proof (captureStats_call_failure E cfg file w3 e Hcall) as Hcs.
  split; [exact Hcs|].
  assert (beforeIncremental E cfg cls i0 st w = Some (r0, pushDefer file st, w4))
    as Hbi.
  { unfold beforeIncremental, captureStage. apply String.eqb_neq in Hpkg.
    by rewrite Hb, Hpkg, Htrace, Hcs. }
  split; [exact Hbi|]. intros Hpass.
  rewrite (iteration_beforeIncremental _ _ _ _ _ _ _ _ _ Hbi).
  destruct (incrementalStage_appends E cfg r0 (pushDefer file st) w4 Hpass)
    as (r' & w' & -> & HS & HF & HC).
  exists r', w'. by rewrite HC.
Qed.

Lemma stats_failure_records_zeros_witness :
  let E := Demo.env Demo.never Demo.never Demo.always "Frames: 7" Demo.never
             Demo.log3 in
  let cfg := Demo.cfg true "mygame" 1 in
  exists r' w',
    iteration E cfg (take 1 Demo.log3) 0 Demo.start Demo.world
      = (w', inr (appendRes r' (pushDefer "/tmp/gapid-regres.gfxtrace"
                                   Demo.start)))
    /\ CaptureStats r' = {| Frames := 0; DrawCalls := 0; Commands := 0 |}.
Proof.
  intros E cfg.
  destruct (stats_failure_records_zeros E cfg (take 1 Demo.log3) 0 Demo.start
              Demo.world _ _ _ "/tmp/gapid-regres.gfxtrace" "exit status 1"
              ltac:(vm_compute; reflexivity) ltac:(discriminate)
              ltac:(vm_compute; reflexivity) ltac:(vm_compute; reflexivity))
    as (_ & _ & H).
  destruct H as (r' & w' & H & HC & _).
  { right. eexists. split; vm_compute; reflexivity. }
  exists r', w'. split; assumption.
Defined.

(** ** The git commands of a run *)

Lemma checkouts_filter evs : checkouts (List.filter isGit evs) = checkouts evs.
Proof.
  induction evs as [|[sha|b|c] evs IH]; simpl; [done| | |done];
    unfold checkouts in *; simpl; by rewrite IH.
Qed.

Lemma branchCheckouts_filter evs :
  branchCheckouts (List.filter isGit evs) = branchCheckouts evs.
Proof.
  induction evs as [|[sha|b|c] evs IH]; simpl; [done| | |done];
    unfold branchCheckouts in *; simpl; by rewrite IH.
Qed.

Lemma checkouts_app a b : checkouts (a ++ b) = checkouts a ++ checkouts b.
Proof. apply omap_app. Qed.

Lemma branchCheckouts_app a b :
  branchCheckouts (a ++ b) = branchCheckouts a ++ branchCheckouts b.
Proof. apply omap_app. Qed.

Lemma checkouts_map l : checkouts (map EvCheckout l) = l.
Proof.
  induction l as [|x l IH]; [done|].
  change (checkouts (map EvCheckout (x :: l)))
    with (x :: checkouts (map EvCheckout l)).
  by rewrite IH.
Qed.

Lemma branchCheckouts_map l : branchCheckouts (map EvCheckout l) = [].
Proof. induction l as [|x l IH]; [done|]. exact IH. Qed.

Lemma gitLog_call cmd w : gitLog (emit (EvCall cmd) w) = gitLog w.
Proof.
  unfold gitLog. simpl. rewrite List.filter_app. simpl. apply app_nil_r.
Qed.

Lemma gitLog_callCmd E cmd w : gitLog (fst (callCmd E cmd w)) = gitLog w.
Proof. unfold callCmd. simpl. by rewrite gitLog_call. Qed.

Lemma gitLog_WriteFile E path d perm w :
  gitLog (fst (Os.WriteFile E path d perm w)) = gitLog w.
Proof.
  unfold Os.WriteFile. destruct (files w !! path) as [f|]; [|done].
  by destruct (canWrite E (mode f)).
Qed.

Lemma gitLog_Remove path w : gitLog (fst (Os.Remove path w)) = gitLog w.
Proof. unfold Os.Remove. by destruct (files w !! path). Qed.

Lemma gitLog_build E cfg w : gitLog (fst (build E cfg w)) = gitLog w.
Proof. unfold build. simpl. by rewrite gitLog_call. Qed.

Lemma gitLog_trace E cfg w : gitLog (fst (trace E cfg w)) = gitLog w.
Proof.
  unfold trace. simpl.
  destruct (callErr _); simpl; [|by rewrite gitLog_call].
  pose proof (gitLog_Remove (traceFile E)
    (emit (EvCall (traceCmd E cfg (traceFile E)))
       (withFiles (callFiles (Call E (traceCmd E cfg (traceFile E)) w)) w)))
    as H.
  destruct (Os.Remove _ _). simpl in *. by rewrite H, gitLog_call.
Qed.

Lemma gitLog_captureStats E cfg file w :
  gitLog (fst (captureStats E cfg file w)) = gitLog w.
Proof.
  unfold captureStats. simpl.
  destruct (callErr _); simpl; by rewrite gitLog_call.
Qed.

Lemma gitLog_captureStage E cfg r st w :
  gitLog (fst (fst (captureStage E cfg r st w))) = gitLog w.
Proof.
  unfold captureStage. destruct (String.eqb (pkg cfg) ""); [done|].
  pose proof (gitLog_trace E cfg w) as Ht.
  destruct (trace E cfg w) as [w1 [e|file]]; [done|].
  pose proof (gitLog_captureStats E cfg file w1) as Hc.
  destruct (captureStats E cfg file w1) as [w2 [c [e|]]]; simpl in *; congruence.
Qed.

Lemma gitLog_withTouchedGLES {S : Type} E cfg
    (f : S -> World -> S * World * option error) s w :
  (forall s0 w0, gitLog (snd (fst (f s0 w0))) = gitLog w0) ->
  gitLog (snd (fst (withTouchedGLES E cfg f s w))) = gitLog w.
Proof.
  intros Hf. unfold withTouchedGLES.
  destruct (Os.Stat _ w) as [e|fi]; [done|].
  destruct (Os.ReadFile E _ w) as [e|d]; [done|]. simpl.
  match goal with |- context [Os.WriteFile E ?p ?x ?m ?v] =>
    pose proof (gitLog_WriteFile E p x m v) as H1;
    destruct (Os.WriteFile E p x m v) as [w2 e2] end.
  specialize (Hf s w2). destruct (f s w2) as [[s' w3] r].
  match goal with |- context [Os.WriteFile E ?p ?x ?m ?v] =>
    pose proof (gitLog_WriteFile E p x m v) as H2;
    destruct (Os.WriteFile E p x m v) as [w4 e4] end.
  simpl in *. rewrite H2, Hf, H1. done.
Qed.

Lemma gitLog_incrementalBuild E cfg r w :
  gitLog (snd (fst (incrementalBuild E cfg r w))) = gitLog w.
Proof.
  unfold incrementalBuild. pose proof (gitLog_build E cfg w) as H.
  by destruct (build E cfg w) as [w1 [d [e|]]].
Qed.

Lemma gitLog_incrementalStage E cfg r st w :
  gitLog (fst (incrementalStage E cfg r st w)) = gitLog w.
Proof.
  unfold incrementalStage. destruct (incBuild cfg); [|done].
  pose proof (gitLog_withTouchedGLES E cfg (incrementalBuild E cfg) r w
                (gitLog_incrementalBuild E cfg)) as H.
  by destruct (withTouchedGLES _ _ _ _ _) as [[r' w1] [e|]].
Qed.

Lemma gitLog_gitCheckout E sha w :
  gitLog (fst (gitCheckout E sha w)) = gitLog w ++ [EvCheckout sha].
Proof.
  unfold gitCheckout, gitLog.
  destruct (gitCheckoutErr E sha w); simpl; by rewrite List.filter_app.
Qed.

Lemma gitLog_gitCheckoutBranch E b w :
  gitLog (fst (gitCheckoutBranch E b w)) = gitLog w ++ [EvCheckoutBranch b].
Proof.
  unfold gitCheckoutBranch, gitLog.
  destruct (gitCheckoutBranchErr E b w); simpl; by rewrite List.filter_app.
Qed.

Lemma gitLog_runDeferred ds w : gitLog (runDeferred ds w) = gitLog w.
Proof.
  unfold runDeferred. revert w.
  induction ds as [|d ds IH]; intros w; [done|]. simpl.
  by rewrite IH, gitLog_Remove.
Qed.

Create Rewrite HintDb gitlog.
#[local] Hint Rewrite gitLog_call gitLog_callCmd gitLog_WriteFile
  gitLog_Remove gitLog_build gitLog_trace gitLog_captureStats
  gitLog_captureStage gitLog_incrementalStage gitLog_runDeferred
  gitLog_gitCheckout gitLog_gitCheckoutBranch : gitlog.

(** Each turn of the loop sends git one command: the check-out of its
    revision. *)
Lemma gitLog_iteration E cfg cls i0 st w :
  gitLog (fst (iteration E cfg cls i0 st w)) =
  gitLog w ++ match revisionAt cls i0 with
              | Some cl => [EvCheckout (Git.cl_SHA cl)]
              | None => []
              end.
Proof.
  unfold iteration, revisionAt.
  destruct (cls !! _) as [cl|]; [|by rewrite app_nil_r].
  pose proof (gitLog_gitCheckout E (Git.cl_SHA cl) w) as Hc.
  destruct (gitCheckout E _ w) as [w1 [e|]]; [done|]. simpl in Hc.
  pose proof (gitLog_build E cfg w1) as Hb.
  destruct (build E cfg w1) as [w2 [d [e|]]]; simpl in *; [congruence|].
  match goal with |- context [captureStage E cfg ?r st w2] =>
    pose proof (gitLog_captureStage E cfg r st w2) as Hs;
    destruct (captureStage E cfg r st w2) as [[w3 st1] [r1|]] end;
    simpl in *; [|congruence].
  pose proof (gitLog_incrementalStage E cfg r1 st1 w3) as Hi.
  destruct (incrementalStage E cfg r1 st1 w3) as [w4 st2]. simpl in *.
  congruence.
Qed.

(** ** The loop over the revisions *)

Lemma omap_seq_lookup {A : Type} (f : nat -> option A) (l : list A) (k : nat) :
  (forall i, (i < length l)%nat -> f (k + i)%nat = l !! i) ->
  omap f (seq k (length l)) = l.
Proof.
  revert k. induction l as [|x l IH]; intros k Hf; [done|].
  simpl. pose proof (Hf 0%nat ltac:(simpl; lia)) as H0.
  rewrite Nat.add_0_r in H0. rewrite H0. simpl. f_equal.
  apply IH. intros i Hi.
  specialize (Hf (S i) ltac:(simpl; lia)).
  by rewrite Nat.add_succ_r in Hf.
Qed.

(** Counting the range index up walks the listing from its last entry to
    its first. *)
Lemma revisionsAt_range cls :
  revisionsAt cls (seq 0 (length cls)) = reverse cls.
Proof.
  unfold revisionsAt. rewrite <- (length_reverse cls).
  apply omap_seq_lookup. intros i Hi. simpl.
  unfold revisionAt. rewrite length_reverse in *.
  rewrite reverse_lookup by done. f_equal. lia.
Qed.

Lemma loop_app E cfg cls idx1 idx2 st w :
  loop E cfg cls (idx1 ++ idx2) st w =
  match loop E cfg cls idx1 st w with
  | (w1, st1, Some e) => (w1, st1, Some e)
  | (w1, st1, None) => loop E cfg cls idx2 st1 w1
  end.
Proof.
  revert st w. induction idx1 as [|i0 idx1 IH]; intros st w; [done|].
  simpl. destruct (iteration E cfg cls i0 st w) as [w1 [e|st1]]; [done|].
  apply IH.
Qed.

Lemma gitLog_loop E cfg cls idx st w :
  exists shas,
    gitLog (fst (fst (loop E cfg cls idx st w)))
      = gitLog w ++ map EvCheckout shas
    /\ (snd (loop E cfg cls idx st w) = None ->
        shas = map Git.cl_SHA (revisionsAt cls idx)).
Proof.
  revert st w. induction idx as [|i0 idx IH]; intros st w.
  { exists []. by rewrite app_nil_r. }
  simpl. pose proof (gitLog_iteration E cfg cls i0 st w) as Hit.
  unfold revisionsAt. simpl.
  destruct (iteration E cfg cls i0 st w) as [w1 [e|st1]]; simpl in *.
  - exists (match revisionAt cls i0 with
            | Some cl => [Git.cl_SHA cl] | None => [] end).
    split; [|done]. rewrite Hit. by destruct (revisionAt cls i0).
  - destruct (IH st1 w1) as (shas & Hlog & Hall).
    exists (match revisionAt cls i0 with
            | Some cl => [Git.cl_SHA cl] | None => [] end ++ shas).
    split.
    + rewrite Hlog, Hit, map_app, <- app_assoc.
      by destruct (revisionAt cls i0).
    + intros Hnone. rewrite (Hall Hnone).
      by destruct (revisionAt cls i0).
Qed.

Lemma preflight_flags E cfg w cfg' b :
  preflight E cfg w = inr (cfg', b) ->
  atSHA cfg' = atSHA cfg /\ count cfg' = count cfg
  /\ gitCurrentBranch E w = inr b.
Proof.
  unfold preflight.
  assert (forall c, (c = cfg \/ exists wd, c = setRoot wd cfg) ->
            atSHA c = atSHA cfg /\ count c = count cfg) as Hc.
  { intros c [->|[wd ->]]; done. }
  destruct (String.eqb (root cfg) "").
  - destruct (Getwd E w) as [e|wd]; [done|].
    destruct (gitNew E _ w); [done|].
    destruct (gitStatus E w) as [e|[|]]; [done| |done]. simpl.
    destruct (gitCurrentBranch E w) as [e|b']; [done|].
    intros [= <- <-]. by destruct (Hc (setRoot wd cfg)); eauto.
  - destruct (gitNew E _ w); [done|].
    destruct (gitStatus E w) as [e|[|]]; [done| |done]. simpl.
    destruct (gitCurrentBranch E w) as [e|b']; [done|].
    by intros [= <- <-].
Qed.

Lemma gitLog_print s w : gitLog (print s w) = gitLog w.
Proof. done. Qed.

Lemma gitLog_runOnBranch E cfg w :
  exists shas,
    gitLog (fst (runOnBranch E cfg w)) = gitLog w ++ map EvCheckout shas
    /\ (forall cls,
          snd (runOnBranch E cfg w) = None ->
          gitLogFrom E (atSHA cfg) (count cfg) w = inr cls ->
          shas = reverse (map Git.cl_SHA cls)).
Proof.
  unfold runOnBranch.
  destruct (gitLogFrom E (atSHA cfg) (count cfg) w) as [e|cls].
  { exists []. by rewrite app_nil_r. }
  destruct (gitLog_loop E cfg cls (seq 0 (length cls))
              {| res := []; deferred := [] |} w) as (shas & Hlog & Hall).
  exists shas.
  destruct (loop E cfg cls _ _ w) as [[w1 st] [e|]]; simpl in *.
  - by autorewrite with gitlog.
  - autorewrite with gitlog. split; [done|].
    intros cls' _ [= <-]. rewrite (Hall eq_refl), revisionsAt_range.
    by rewrite <- fmap_reverse.
Qed.

(** C4. For a run that ends without error on a listing [cls] of N
    revisions (newest first, as the revision listing returns them), the
    check-outs by hash the run performs are those of [cls] in reverse, that
    is oldest to newest, and there are exactly N of them. *)
Theorem checkouts_in_reverse_listing_order (E : Env) (cfg : Config)
    (w w' : World) (cls : list Git.ChangeList) :
  run E cfg w = (w', None) ->
  gitLogFrom E (atSHA cfg) (count cfg) w = inr cls ->
  checkouts (events w')
    = checkouts (events w) ++ reverse (map Git.cl_SHA cls)
  /\ length (checkouts (events w'))
     = (length (checkouts (events w)) + length cls)%nat.
Proof.
  intros Hrun Hlog. unfold run in Hrun.
  destruct (preflight E cfg w) as [e|[cfg' b]] eqn:Hpre; [done|].
  destruct (preflight_flags _ _ _ _ _ Hpre) as (Hat & Hcount & _).
  destruct (gitLog_runOnBranch E cfg' w) as (shas & Hg & Hall).
  destruct (runOnBranch E cfg' w) as [w1 r].
  pose proof (gitLog_gitCheckoutBranch E b w1) as Hbr.
  destruct (gitCheckoutBranch E b w1) as [w2 eb]. simpl in *.
  injection Hrun as <- ->.
  rewrite Hat, Hcount in Hall. rewrite (Hall cls eq_refl Hlog) in Hg.
  assert (checkouts (events w2)
          = checkouts (events w) ++ reverse (map Git.cl_SHA cls)) as Hc.
  { rewrite <- (checkouts_filter (events w2)).
    fold (gitLog w2).
    rewrite Hbr, Hg, !checkouts_app, checkouts_map.
    unfold gitLog. rewrite checkouts_filter. simpl. by rewrite app_nil_r. }
  split; [exact Hc|].
  by rewrite Hc, length_app, length_reverse, length_map.
Qed.

(** A window of three; the build of the middle revision fails, which costs
    a record but no check-out. *)
Lemma checkouts_in_reverse_listing_order_witness :
  let E := Demo.env
             (fun w => match head w with
                       | Git.Detached "bbbbbb2222" => true
                       | _ => false
                       end)
             Demo.never Demo.never "" Demo.never Demo.log3 in
  let cfg := Demo.cfg true "" 3 in
  map Git.cl_SHA Demo.log3 = ["cccccc3333"; "bbbbbb2222"; "aaaaaa1111"]
  /\ checkouts (events (fst (run E cfg Demo.world)))
     = ["aaaaaa1111"; "bbbbbb2222"; "cccccc3333"]
  /\ length (checkouts (events (fst (run E cfg Demo.world)))) = 3%nat.
Proof.
  intros E cfg. split; [reflexivity|].
  apply (checkouts_in_reverse_listing_order E cfg Demo.world
           (fst (run E cfg Demo.world)) Demo.log3).
  - vm_compute. reflexivity.
  - reflexivity.
Defined.

(** C6, as stated, fails.  A window of one revision, every tool working,
    except that git cannot check the branch out at the end: [run] drops the
    error of the deferred call and returns nil, and the working tree is
    left on the revision checked out last instead of on master, the branch
    recorded at the start. *)
Lemma branch_not_restored_counterexample :
  let cfg := Demo.cfg false "" 1 in
  preflight stuckEnv cfg Demo.world = inr (cfg, "master")
  /\ head Demo.world = Git.OnBranch "master"
  /\ snd (run stuckEnv cfg Demo.world) = None
  /\ head (fst (run stuckEnv cfg Demo.world)) = Git.Detached "cccccc3333"
  /\ head (fst (run stuckEnv cfg Demo.world)) <> Git.OnBranch "master".
Proof. repeat split; try (vm_compute; reflexivity). discriminate. Qed.

(** C6, amended. For every run that gets to record its branch [b] at the
    start, however the run then goes (revisions processed, skipped, or the
    run aborted by a failing check-out in the middle of the loop), the run
    tries to restore the branch exactly once, at its very end and not per
    iteration: it checks out a branch exactly once, namely [b]; that
    check-out is the last thing the run does; all the other git commands
    of the run are check-outs of revisions.  When this last check-out
    succeeds the working tree is on [b] when [run] returns; when it fails,
    its error is dropped and the tree stays where it was. *)
Theorem branch_restored_once_at_end (E : Env) (cfg cfg' : Config) (w : World)
    (b : string) :
  preflight E cfg w = inr (cfg', b) ->
  let w1 := fst (runOnBranch E cfg' w) in
  branchCheckouts (events (fst (run E cfg w)))
  = branchCheckouts (events w) ++ [b]
  /\ last (events (fst (run E cfg w))) = Some (EvCheckoutBranch b)
  /\ (exists shas,
        gitLog (fst (run E cfg w))
        = gitLog w ++ map EvCheckout shas ++ [EvCheckoutBranch b])
  /\ snd (run E cfg w) = snd (runOnBranch E cfg' w)
  /\ (gitCheckoutBranchErr E b w1 = None ->
      head (fst (run E cfg w)) = Git.OnBranch b)
  /\ (gitCheckoutBranchErr E b w1 <> None ->
      head (fst (run E cfg w)) = head w1).
Proof.
  intros Hpre w1. unfold w1, run. rewrite Hpre.
  destruct (gitLog_runOnBranch E cfg' w) as (shas & Hg & _).
  destruct (runOnBranch E cfg' w) as [w2 r]. cbn [fst snd] in *.
  pose proof (gitLog_gitCheckoutBranch E b w2) as Hbr.
  assert (last (events (fst (gitCheckoutBranch E b w2)))
          = Some (EvCheckoutBranch b)) as Hlast.
  { unfold gitCheckoutBranch.
    destruct (gitCheckoutBranchErr E b w2); apply last_snoc. }
  assert (gitCheckoutBranchErr E b w2 = None ->
          head (fst (gitCheckoutBranch E b w2)) = Git.OnBranch b) as Hok.
  { unfold gitCheckoutBranch. by intros ->. }
  assert (gitCheckoutBranchErr E b w2 <> None ->
          head (fst (gitCheckoutBranch E b w2)) = head w2) as Hko.
  { unfold gitCheckoutBranch. by destruct (gitCheckoutBranchErr E b w2). }
  destruct (gitCheckoutBranch E b w2) as [w3 eb]. cbn [fst snd] in *.
  assert (gitLog w3 = gitLog w ++ map EvCheckout shas ++ [EvCheckoutBranch b])
    as Hlog.
  { by rewrite Hbr, Hg, <- app_assoc. }
  split; [|split; [exact Hlast|split; [by exists shas|by repeat split]]].
  rewrite <- (branchCheckouts_filter (events w3)).
  fold (gitLog w3).
  rewrite Hlog, !branchCheckouts_app, branchCheckouts_map.
  unfold gitLog. by rewrite branchCheckouts_filter.
Qed.

(** A run that is refused before the branch is recorded touches nothing. *)
Lemma run_refused E cfg w e :
  preflight E cfg w = inl e -> run E cfg w = (w, Some e).
Proof. unfold run. by intros ->. Qed.

(** A window of three in which the check-out of the second revision fails
    and aborts the run; the branch check-out at the end succeeds. *)
Lemma branch_restored_once_at_end_witness :
  let E := Demo.env Demo.never Demo.never Demo.never ""
             (String.eqb "bbbbbb2222") Demo.log3 in
  let cfg := Demo.cfg true "" 3 in
  snd (run E cfg Demo.world) = Some "pathspec did not match"
  /\ head (fst (run E cfg Demo.world)) = Git.OnBranch "master"
  /\ branchCheckouts (events (fst (run E cfg Demo.world))) = ["master"]
  /\ last (events (fst (run E cfg Demo.world)))
     = Some (EvCheckoutBranch "master").
Proof.
  intros E cfg. split; [vm_compute; reflexivity|].
  destruct (branch_restored_once_at_end E cfg cfg Demo.world "master"
              ltac:(reflexivity)) as (H2 & H3 & _ & _ & H1 & _).
  split; [exact (H1 eq_refl)|]. split; [exact H2 | exact H3].
Defined.

(** ** The records of a run *)

Lemma gatherFileSizes_SHA E cfg r w : SHA (gatherFileSizes E cfg r w) = SHA r.
Proof.
  unfold gatherFileSizes. generalize (artifacts E cfg). intros l.
  revert r. induction l as [|f l IH]; intros r; [done|]. simpl.
  rewrite IH. by destruct (Os.Stat (fst f) w).
Qed.

Lemma captureStage_SHA E cfg r st w w1 st1 r1 :
  captureStage E cfg r st w = (w1, st1, Some r1) ->
  SHA r1 = SHA r /\ res st1 = res st.
Proof.
  unfold captureStage. destruct (String.eqb (pkg cfg) "").
  { by intros [= <- <- <-]. }
  destruct (trace E cfg w) as [w2 [e|file]]; [done|].
  destruct (captureStats E cfg file w2) as [w3 [c [e|]]]; [done|].
  by intros [= <- <- <-].
Qed.

Lemma incrementalStage_res E cfg r st w :
  res (snd (incrementalStage E cfg r st w)) = res st
  \/ exists r', SHA r' = SHA r
                /\ res (snd (incrementalStage E cfg r st w)) = res st ++ [r'].
Proof.
  unfold incrementalStage. destruct (incBuild cfg); [|right; by exists r].
  unfold withTouchedGLES.
  destruct (Os.Stat _ w) as [e|fi]; [by left|].
  destruct (Os.ReadFile E _ w) as [e|d]; [by left|]. simpl.
  destruct (Os.WriteFile E _ _ _ _) as [w2 e2]. unfold incrementalBuild.
  destruct (build E cfg w2) as [w3 [t [e|]]];
    destruct (Os.WriteFile E _ _ _ w3) as [w4 e4]; simpl; right;
    eexists; (split; [|reflexivity]); reflexivity.
Qed.

(** A turn of the loop adds no record, or one record, which carries the
    short hash of the revision of that turn. *)
Lemma iteration_res E cfg cls i0 st w w1 st1 :
  iteration E cfg cls i0 st w = (w1, inr st1) ->
  res st1 = res st
  \/ exists r cl, revisionAt cls i0 = Some cl /\ SHA r = shortSHA cl
                  /\ res st1 = res st ++ [r].
Proof.
  unfold iteration, revisionAt.
  destruct (cls !! _) as [cl|]; [|done].
  destruct (gitCheckout E _ w) as [w2 [e|]]; [done|].
  destruct (build E cfg w2) as [w3 [d [e|]]]; [intros [= <- <-]; by left|].
  destruct (captureStage E cfg _ st w3) as [[w4 st4] [r4|]] eqn:Hc.
  - destruct (captureStage_SHA _ _ _ _ _ _ _ _ Hc) as [HS Hres].
    rewrite gatherFileSizes_SHA in HS. simpl in HS.
    pose proof (incrementalStage_res E cfg r4 st4 w4) as Hi.
    destruct (incrementalStage E cfg r4 st4 w4) as [w5 st5].
    intros [= <- <-]. simpl in Hi. rewrite Hres in Hi.
    destruct Hi as [Hi|(r' & HS' & Hi)]; [by left|].
    right. exists r', cl. split; [done|]. split; [|done].
    unfold shortSHA. congruence.
  - intros [= <- <-]. left.
    pose proof (captureStage_res E cfg
      (gatherFileSizes E cfg (newStats (substring 0 6 (Git.cl_SHA cl))) w3)
      st w3) as H.
    by rewrite Hc in H.
Qed.

(** The records the loop adds come from the revisions it takes, in the
    order it takes them, at most one for each. *)
Lemma loop_res E cfg cls idx st w :
  exists rs,
    res (snd (fst (loop E cfg cls idx st w))) = res st ++ rs
    /\ map SHA rs `sublist_of` map shortSHA (revisionsAt cls idx)
    /\ (length rs <= length idx)%nat.
Proof.
  revert st w. induction idx as [|i0 idx IH]; intros st w.
  { exists []. simpl. rewrite app_nil_r. repeat split; [constructor | lia]. }
  simpl. destruct (iteration E cfg cls i0 st w) as [w1 [e|st1]] eqn:Hit.
  { exists []. simpl. rewrite app_nil_r.
    repeat split; [apply sublist_nil_l | lia]. }
  destruct (IH st1 w1) as (rs & Hres & Hsub & Hlen).
  unfold revisionsAt in *. simpl.
  destruct (iteration_res _ _ _ _ _ _ _ _ Hit)
    as [Hsame|(r & cl & Hcl & HS & Hadd)].
  - exists rs. rewrite Hres, Hsame. split; [done|]. split; [|lia].
    destruct (revisionAt cls i0); [|done]. by apply sublist_cons.
  - exists (r :: rs). rewrite Hres, Hadd, <- app_assoc. split; [done|].
    split; [|simpl; lia]. rewrite Hcl. simpl. rewrite HS.
    by apply sublist_skip.
Qed.

Lemma iteration_build_failure E cfg cls i0 st w cl w1 e :
  revisionAt cls i0 = Some cl ->
  gitCheckout E (Git.cl_SHA cl) w = (w1, None) ->
  snd (snd (build E cfg w1)) = Some e ->
  iteration E cfg cls i0 st w = (fst (build E cfg w1), inr st).
Proof.
  unfold iteration, revisionAt. intros -> -> Hb.
  destruct (build E cfg w1) as [w2 [d err]]. simpl in *. by subst err.
Qed.

(** The table is its header followed by one row for each record, in the
    order of the records. *)
Lemma writeTable_rows E cfg rs :
  writeTable E cfg rs
  = writeHeader cfg "" +:+ String.concat "" (map (rowText E cfg) rs).
Proof.
  unfold writeTable. generalize (writeHeader cfg ""). intros h.
  revert h. induction rs as [|r rs IH]; intros h.
  - cbn [fold_left map String.concat]. by rewrite append_nil_r.
  - cbn [fold_left map]. by rewrite IH, concat_cons, append_assoc.
Qed.

(** * Further properties of the program *)

(** ** The stats parser, continued *)

Lemma allChars_app p a b :
  allChars p (a +:+ b) = allChars p a && allChars p b.
Proof.
  induction a as [|c a IH]; [done|].
  rewrite append_cons. simpl. rewrite IH. by destruct (p c).
Qed.

(** Every slice [FindAllStringSubmatch] returns is a match of the pattern
    with its two submatches. *)
Lemma FindAllStringSubmatch_sound text :
  Forall (fun m => exists whole word ds,
            m = [whole; word; ds] /\ matchesPattern whole word ds)
         (Regexp.FindAllStringSubmatch text).
Proof.
  unfold Regexp.FindAllStringSubmatch.
  cut (forall skip,
         Forall (fun m => exists whole word ds,
                   m = [whole; word; ds] /\ matchesPattern whole word ds)
                (Regexp.findAllFrom skip text)); [by intros H|].
  induction text as [|c text IH]; intros skip; simpl; [constructor|].
  destruct skip as [|k]; [|apply IH].
  destruct (Regexp.matchHere (String c text)) as [m|] eqn:Hm; [|apply IH].
  constructor; [|apply IH].
  destruct (matchHere_sound _ _ Hm) as (whole & word & ds & rest & -> & _ & Hp).
  by exists whole, word, ds.
Qed.

Lemma digits_nonneg s :
  forall acc v, 0 <= acc -> Strconv.digits acc s = Some v -> 0 <= v.
Proof.
  induction s as [|c s IH]; intros acc v Hacc; simpl.
  { intros [= <-]. done. }
  destruct (isDigit c) eqn:Hc; [|done].
  apply IH. unfold Strconv.digitVal.
  unfold isDigit, inRange in Hc. apply andb_true_iff in Hc as [Hlo _].
  apply N.leb_le in Hlo. lia.
Qed.

Lemma digits_total s :
  allChars isDigit s = true ->
  forall acc, exists v, Strconv.digits acc s = Some v.
Proof.
  induction s as [|c s IH]; simpl; intros Hall acc; [by eexists|].
  apply andb_true_iff in Hall as [Hc Hs]. rewrite Hc. by apply IH.
Qed.

Lemma Atoi_digits s v :
  s <> "" -> allChars isDigit s = true -> Strconv.digits 0 s = Some v ->
  Strconv.Atoi s =
    if (Strconv.minInt <=? v) && (v <=? Strconv.maxInt) then inr v
    else inl "value out of range".
Proof.
  intros Hne Hall Hv. destruct s as [|c s]; [done|].
  simpl in Hall. apply andb_true_iff in Hall as [Hc _].
  unfold Strconv.Atoi.
  destruct c as [[] [] [] [] [] [] [] []]; try discriminate Hc;
    by rewrite Hv.
Qed.

(** On the digits of a match [strconv.Atoi] can only fail for range, and
    what it returns is not negative. *)
Lemma Atoi_on_digits ds :
  ds <> "" -> allChars isDigit ds = true ->
  (exists n, Strconv.Atoi ds = inr n /\ counterInRange n)
  \/ Strconv.Atoi ds = inl "value out of range".
Proof.
  intros Hne Hall.
  destruct (digits_total _ Hall 0) as [v Hv].
  pose proof (digits_nonneg _ 0 v ltac:(lia) Hv) as Hpos.
  rewrite (Atoi_digits ds v Hne Hall Hv).
  destruct (Z.leb_spec Strconv.minInt v), (Z.leb_spec v Strconv.maxInt);
    simpl; [left|by right|by right|by right].
  exists v. split; [done|]. unfold counterInRange. lia.
Qed.

Lemma scanStep_range acc m whole word ds :
  m = [whole; word; ds] -> matchesPattern whole word ds ->
  counterInRange (numFrames acc) /\ counterInRange (numDraws acc)
  /\ counterInRange (numCmds acc) ->
  counterInRange (numFrames (scanStep acc m))
  /\ counterInRange (numDraws (scanStep acc m))
  /\ counterInRange (numCmds (scanStep acc m)).
Proof.
  intros -> (ws & _ & _ & _ & Hne & _ & _ & Hd) (HF & HD & HC).
  unfold scanStep. simpl.
  destruct (Atoi_on_digits ds Hne Hd) as [(n & -> & Hn)| ->]; [|done].
  by repeat destruct (String.eqb word _).
Qed.

(** X1. Whatever the stats executable prints, each of the three counters
    [captureStats] reads from it is between 0 and the largest [int]: the
    pattern admits no sign, and a number above the range is skipped. *)
Theorem scanCounters_in_range (text : string) :
  counterInRange (numFrames (scanCounters text))
  /\ counterInRange (numDraws (scanCounters text))
  /\ counterInRange (numCmds (scanCounters text)).
Proof.
  unfold scanCounters.
  assert (counterInRange (numFrames zeroCounters)
          /\ counterInRange (numDraws zeroCounters)
          /\ counterInRange (numCmds zeroCounters)) as H0.
  { unfold counterInRange. by vm_compute. }
  revert H0. generalize zeroCounters.
  induction (FindAllStringSubmatch_sound text) as [|m ms Hm _ IH];
    intros acc Hacc; [done|].
  simpl. apply IH. destruct Hm as (whole & word & ds & Hm & Hp).
  by eapply scanStep_range.
Qed.

Lemma scanStep_not_recognized acc m :
  recognized m = false -> scanStep acc m = acc.
Proof.
  unfold recognized, scanStep. intros H.
  apply orb_false_iff in H as [H HC]. apply orb_false_iff in H as [HF HD].
  destruct (negb _); [done|].
  destruct (Strconv.Atoi _); [done|]. by rewrite HF, HD, HC.
Qed.

(** X2. The counters depend only on the matches whose word is exactly
    Frames, Draws or Commands: dropping every other match from the list
    the loop of [captureStats] ranges over changes no counter, whatever
    the counters were before. *)
Theorem scanMatches_ignores_unrecognized (ms : list (list string))
    (acc : Counters) :
  scanMatches (List.filter recognized ms) acc = scanMatches ms acc.
Proof.
  revert acc. induction ms as [|m ms IH]; intros acc; [done|].
  simpl. destruct (recognized m) eqn:Hr; simpl.
  - apply IH.
  - rewrite IH. unfold scanMatches. simpl.
    by rewrite (scanStep_not_recognized acc m Hr).
Qed.

Lemma matchHere_has_colon s m :
  Regexp.matchHere s = Some m -> allChars notColon s = false.
Proof.
  intros Hm.
  destruct (matchHere_sound _ _ Hm)
    as (whole & word & ds & rest & _ & -> & ws & -> & _).
  rewrite !allChars_app. simpl.
  by destruct (allChars notColon word).
Qed.

(** X3. A stats output without a colon, the empty output included, has no
    match, and [captureStats] reads three zeros from it. *)
Theorem no_colon_no_counters (text : string) :
  allChars notColon text = true ->
  Regexp.FindAllStringSubmatch text = []
  /\ scanCounters text = zeroCounters.
Proof.
  intros Hall.
  assert (Regexp.FindAllStringSubmatch text = []) as Hnone.
  { unfold Regexp.FindAllStringSubmatch. generalize 0%nat as skip.
    induction text as [|c text IH]; intros skip; [done|].
    assert (allChars notColon text = true) as Htail.
    { simpl in Hall. by apply andb_true_iff in Hall as [_ ?]. }
    cbn [Regexp.findAllFrom]. destruct skip as [|k]; [|by apply IH].
    destruct (Regexp.matchHere (String c text)) as [m|] eqn:Hm;
      [|by apply IH].
    apply matchHere_has_colon in Hm. congruence. }
  split; [exact Hnone|]. unfold scanCounters. by rewrite Hnone.
Qed.

Lemma no_colon_no_counters_witness :
  scanCounters "error reading capture" = zeroCounters
  /\ scanCounters "" = zeroCounters.
Proof.
  split.
  - apply (no_colon_no_counters "error reading capture"). reflexivity.
  - apply (no_colon_no_counters ""). reflexivity.
Defined.

(** ** Reading back a printed number *)

Lemma string_of_uint_digits d :
  allChars isDigit (NilEmpty.string_of_uint d) = true.
Proof. induction d; simpl; by rewrite ?IHd. Qed.

Lemma digits_of_uint_acc d :
  forall acc,
    Strconv.digits (Zpos acc) (NilEmpty.string_of_uint d)
    = Some (Zpos (Pos.of_uint_acc d acc)).
Proof.
  induction d; intros acc; simpl; [done|..];
    rewrite <- IHd; f_equal; unfold Strconv.digitVal; simpl; lia.
Qed.

Lemma digits_of_uint d :
  Strconv.digits 0 (NilEmpty.string_of_uint d)
  = Some (Z.of_N (Pos.of_uint d)).
Proof. induction d; simpl; [done|exact IHd|..]; apply digits_of_uint_acc. Qed.

Lemma string_of_uint_nonnil d : d <> Decimal.Nil -> NilEmpty.string_of_uint d <> "".
Proof. by destruct d. Qed.

(** [strconv.Atoi] reads back the decimal text of every [int]. *)
Lemma Atoi_formatInt n :
  Strconv.minInt <= n <= Strconv.maxInt -> Strconv.Atoi (formatInt n) = inr n.
Proof.
  intros Hn. destruct n as [|p|p]; [done| |].
  - unfold formatInt. simpl.
    rewrite (Atoi_digits _ (Zpos p)).
    + destruct (Z.leb_spec Strconv.minInt (Zpos p)),
        (Z.leb_spec (Zpos p) Strconv.maxInt); simpl; [done|lia..].
    + apply string_of_uint_nonnil, DecimalPos.Unsigned.to_uint_nonnil.
    + apply string_of_uint_digits.
    + by rewrite digits_of_uint, DecimalPos.Unsigned.of_to.
  - unfold formatInt, Strconv.Atoi. simpl.
    pose proof (string_of_uint_nonnil _
                  (DecimalPos.Unsigned.to_uint_nonnil p)) as Hne.
    rewrite digits_of_uint, DecimalPos.Unsigned.of_to.
    destruct (NilEmpty.string_of_uint (Pos.to_uint p)); [done|]. simpl.
    change (- Z.pos p) with (Z.neg p).
    destruct (Z.leb_spec Strconv.minInt (Zneg p)),
      (Z.leb_spec (Zneg p) Strconv.maxInt); simpl; [done|lia..].
Qed.

Lemma span_app p a b :
  allChars p a = true -> notStartingWith p b -> span p (a +:+ b) = (a, b).
Proof.
  intros Ha Hb. induction a as [|c a IH].
  - destruct b as [|c b]; [done|]. simpl in *. by rewrite Hb.
  - simpl in Ha. apply andb_true_iff in Ha as [Hc Ha].
    rewrite append_cons. simpl. by rewrite Hc, (IH Ha).
Qed.

Lemma digit_not_space c : isDigit c = true -> isSpace c = false.
Proof. by destruct c as [[] [] [] [] [] [] [] []]. Qed.

(** Completeness of [matchHere]: a token made of letters, a colon, white
    space and digits, followed by something that is not a digit, is found
    with exactly these submatches. *)
Lemma matchHere_complete word ws ds rest :
  word <> "" -> ws <> "" -> ds <> "" ->
  allChars isLetter word = true -> allChars isSpace ws = true ->
  allChars isDigit ds = true -> notStartingWith isDigit rest ->
  Regexp.matchHere (word +:+ ":" +:+ ws +:+ ds +:+ rest)
  = Some [word +:+ ":" +:+ ws +:+ ds; word; ds].
Proof.
  intros Hw Hs Hd Lw Ls Ld Hrest. unfold Regexp.matchHere.
  rewrite (span_app isLetter word (":" +:+ ws +:+ ds +:+ rest) Lw);
    [|done].
  destruct word as [|c word]; [done|].
  change (":" +:+ ws +:+ ds +:+ rest) with (String ":" (ws +:+ ds +:+ rest)).
  cbv beta iota.
  rewrite (span_app isSpace ws (ds +:+ rest) Ls); cycle 1.
  { destruct ds as [|d ds]; [done|]. simpl in *.
    apply andb_true_iff in Ld as [Hc _]. by apply digit_not_space. }
  rewrite (span_app isDigit ds rest Ld Hrest).
  destruct ws as [|c2 ws]; [done|]. by destruct ds as [|c3 ds].
Qed.

Lemma findAllFrom_skip a :
  forall k b,
    Regexp.findAllFrom (String.length a + k) (a +:+ b)
    = Regexp.findAllFrom k b.
Proof.
  induction a as [|c a IH]; intros k b; [done|].
  rewrite append_cons. simpl. apply IH.
Qed.

Lemma findAll_head c whole rest m :
  Regexp.matchHere (String c whole +:+ rest) = Some m ->
  hd "" m = String c whole ->
  Regexp.FindAllStringSubmatch (String c whole +:+ rest)
  = m :: Regexp.FindAllStringSubmatch rest.
Proof.
  intros Hm Hhd. unfold Regexp.FindAllStringSubmatch.
  change (String c whole +:+ rest) with (String c (whole +:+ rest)) in *.
  cbn [Regexp.findAllFrom]. rewrite Hm, Hhd. f_equal.
  cbn [String.length]. rewrite Nat.sub_succ, Nat.sub_0_r.
  rewrite <- (Nat.add_0_r (String.length whole)).
  apply findAllFrom_skip.
Qed.

(** A token at the head of the text is the first match, and the scan goes
    on right behind it. *)
Lemma FindAllStringSubmatch_token word ws ds rest :
  word <> "" -> ws <> "" -> ds <> "" ->
  allChars isLetter word = true -> allChars isSpace ws = true ->
  allChars isDigit ds = true -> notStartingWith isDigit rest ->
  Regexp.FindAllStringSubmatch ((word +:+ ":" +:+ ws +:+ ds) +:+ rest)
  = [word +:+ ":" +:+ ws +:+ ds; word; ds]
      :: Regexp.FindAllStringSubmatch rest.
Proof.
  intros Hw Hs Hd Lw Ls Ld Hrest.
  pose proof (matchHere_complete word ws ds rest Hw Hs Hd Lw Ls Ld Hrest)
    as Hm.
  destruct word as [|c word]; [done|].
  apply (findAll_head c (word +:+ ":" +:+ ws +:+ ds) rest); [|done].
  rewrite <- Hm. f_equal.
  change (String c (word +:+ ":" +:+ ws +:+ ds))
    with (String c word +:+ ":" +:+ ws +:+ ds).
  by rewrite !append_assoc.
Qed.

Lemma formatInt_digits n :
  0 <= n -> formatInt n <> "" /\ allChars isDigit (formatInt n) = true.
Proof.
  intros Hn. destruct n as [|p|p]; [done| |lia].
  unfold formatInt. simpl. split.
  - apply string_of_uint_nonnil, DecimalPos.Unsigned.to_uint_nonnil.
  - apply string_of_uint_digits.
Qed.

(** X4. The parser reads back a printed number.  When the stats text
    begins with one of the three counter names, a colon, some white space
    and the decimal text of a number [n] of the [int] range, [n] not
    negative, and goes on with anything but a digit, then that counter is
    set to [n] and the scan continues on the rest of the text, where later
    tokens may still overwrite it. *)
Theorem captureStats_reads_printed_counter (ws rest : string) (n : Z) :
  ws <> "" -> allChars isSpace ws = true ->
  0 <= n <= Strconv.maxInt ->
  notStartingWith isDigit rest ->
  scanCounters (("Frames" +:+ ":" +:+ ws +:+ formatInt n) +:+ rest)
  = scanMatches (Regexp.FindAllStringSubmatch rest)
      {| numFrames := n; numDraws := 0; numCmds := 0 |}
  /\ scanCounters (("Draws" +:+ ":" +:+ ws +:+ formatInt n) +:+ rest)
  = scanMatches (Regexp.FindAllStringSubmatch rest)
      {| numFrames := 0; numDraws := n; numCmds := 0 |}
  /\ scanCounters (("Commands" +:+ ":" +:+ ws +:+ formatInt n) +:+ rest)
  = scanMatches (Regexp.FindAllStringSubmatch rest)
      {| numFrames := 0; numDraws := 0; numCmds := n |}.
Proof.
  intros Hws Lws Hn Hrest.
  destruct (formatInt_digits n ltac:(lia)) as [Hne Hdig].
  assert (Strconv.Atoi (formatInt n) = inr n) as Hatoi.
  { apply Atoi_formatInt. unfold Strconv.minInt, Strconv.maxInt in *.
    simpl in *. lia. }
  unfold scanCounters.
  rewrite !(FindAllStringSubmatch_token _ ws (formatInt n) rest)
    by done.
  unfold scanMatches. simpl. unfold scanStep. simpl.
  by rewrite Hatoi.
Qed.

Lemma captureStats_reads_printed_counter_witness :
  formatInt 42 = "42"
  /\ scanCounters "Frames: 42 Draws: 7"
     = {| numFrames := 42; numDraws := 7; numCmds := 0 |}.
Proof.
  split; [reflexivity|].
  destruct (captureStats_reads_printed_counter " " " Draws: 7" 42
              ltac:(discriminate) ltac:(reflexivity)
              ltac:(vm_compute; split; discriminate) ltac:(reflexivity))
    as (H & _).
  exact H.
Defined.

(** ** The artifact sizes *)

Lemma loadSize_storeSize_same p v r : loadSize p (storeSize p v r) = v.
Proof. by destruct p. Qed.

Lemma loadSize_storeSize_other p q v r :
  p <> q -> loadSize p (storeSize q v r) = loadSize p r.
Proof. by destruct p, q. Qed.

Lemma gather_fold_other w (l : list (string * SizeField)) p :
  p ∉ l.*2 ->
  forall r,
    loadSize p
      (fold_left
         (fun r f =>
            match Os.Stat (fst f) w with
            | inl _ => r
            | inr fi => storeSize (snd f) (Os.Size fi) r
            end) l r)
    = loadSize p r.
Proof.
  induction l as [|[path q] l IH]; intros Hp r; [done|].
  simpl in *. rewrite not_elem_of_cons in Hp. destruct Hp as [Hq Hp].
  rewrite (IH Hp). destruct (Os.Stat path w); [done|].
  by apply loadSize_storeSize_other.
Qed.

Lemma gather_fold_field w (l : list (string * SizeField)) path p :
  NoDup l.*2 -> (path, p) ∈ l ->
  forall r,
    loadSize p
      (fold_left
         (fun r f =>
            match Os.Stat (fst f) w with
            | inl _ => r
            | inr fi => storeSize (snd f) (Os.Size fi) r
            end) l r)
    = match Os.Stat path w with
      | inl _ => loadSize p r
      | inr fi => Os.Size fi
      end.
Proof.
  induction l as [|[path' q] l IH]; intros Hnd Hin r.
  { by apply elem_of_nil in Hin. }
  simpl in *. apply NoDup_cons in Hnd as [Hq Hnd].
  apply elem_of_cons in Hin as [[= <- <-]|Hin].
  - rewrite (gather_fold_other w l p Hq).
    destruct (Os.Stat path w); [done|]. apply loadSize_storeSize_same.
  - rewrite (IH Hnd Hin).
    assert (p <> q) as Hne.
    { intros ->. apply Hq. by apply (list_elem_of_fmap_2 snd) in Hin. }
    destruct (Os.Stat path w); [|done].
    destruct (Os.Stat path' w); [done|].
    by apply loadSize_storeSize_other.
Qed.

Lemma artifacts_fields_distinct E cfg : NoDup (artifacts E cfg).*2.
Proof.
  unfold artifacts. simpl.
  repeat (apply NoDup_cons; split;
          [rewrite ?elem_of_cons, elem_of_nil; intuition discriminate|]).
  apply NoDup_nil_2.
Qed.

(** X5. Gathering the file sizes never fails and treats the nine artifacts
    independently: after it, each size field holds the byte size of its
    own artifact file when that file can be stat'ed, and keeps the value it
    had (zero in [run]) when it cannot, whatever happens to the other
    eight. *)
Theorem gatherFileSizes_each_field (E : Env) (cfg : Config) (r : stats)
    (w : World) :
  Forall (fun f =>
            loadSize (snd f) (gatherFileSizes E cfg r w)
            = match files w !! fst f with
              | Some fi => Z.of_nat (String.length (data fi))
              | None => loadSize (snd f) r
              end)
         (artifacts E cfg).
Proof.
  apply Forall_forall. intros [path p] Hin. simpl.
  unfold gatherFileSizes.
  rewrite (gather_fold_field w (artifacts E cfg) path p
             (artifacts_fields_distinct E cfg) Hin r).
  unfold Os.Stat. by destruct (files w !! path).
Qed.

Lemma gatherFileSizes_capture E cfg r w :
  CaptureStats (gatherFileSizes E cfg r w) = CaptureStats r.
Proof.
  unfold gatherFileSizes. generalize (artifacts E cfg). intros l.
  revert r. induction l as [|f l IH]; intros r; [done|]. simpl.
  rewrite IH. by destruct (Os.Stat (fst f) w).
Qed.

(** ** Records and switched-off stages *)

Lemma captureStage_record E cfg r st w w1 st1 r1 :
  captureStage E cfg r st w = (w1, st1, Some r1) ->
  IncrementalBuildTime r1 = IncrementalBuildTime r
  /\ (pkg cfg = "" -> r1 = r).
Proof.
  unfold captureStage.
  destruct (String.eqb_spec (pkg cfg) "") as [Hpkg|Hpkg].
  { by intros [= <- <- <-]. }
  destruct (trace E cfg w) as [w2 [e|file]]; [done|].
  destruct (captureStats E cfg file w2) as [w3 [c [e|]]]; [done|].
  by intros [= <- <- <-].
Qed.

Lemma incrementalStage_record E cfg r st w :
  res (snd (incrementalStage E cfg r st w)) = res st
  \/ exists r', res (snd (incrementalStage E cfg r st w)) = res st ++ [r']
                /\ CaptureStats r' = CaptureStats r
                /\ (incBuild cfg = false -> r' = r).
Proof.
  unfold incrementalStage. destruct (incBuild cfg); [|right; by exists r].
  unfold withTouchedGLES.
  destruct (Os.Stat _ w) as [e|fi]; [by left|].
  destruct (Os.ReadFile E _ w) as [e|d]; [by left|]. simpl.
  destruct (Os.WriteFile E _ _ _ _) as [w2 e2]. unfold incrementalBuild.
  destruct (build E cfg w2) as [w3 [t [e|]]];
    destruct (Os.WriteFile E _ _ _ w3) as [w4 e4]; simpl; right;
    eexists; (split; [reflexivity|]); by split.
Qed.

Lemma iteration_offStages E cfg cls i0 st w w1 st1 :
  iteration E cfg cls i0 st w = (w1, inr st1) ->
  res st1 = res st
  \/ exists r, res st1 = res st ++ [r] /\ offStagesAtZero cfg r.
Proof.
  unfold iteration.
  destruct (cls !! _) as [cl|]; [|done].
  destruct (gitCheckout E _ w) as [w2 [e|]]; [done|].
  destruct (build E cfg w2) as [w3 [d [e|]]]; [intros [= <- <-]; by left|].
  destruct (captureStage E cfg _ st w3) as [[w4 st4] [r4|]] eqn:Hc.
  - destruct (captureStage_record _ _ _ _ _ _ _ _ Hc) as [Ht Hsame].
    destruct (captureStage_SHA _ _ _ _ _ _ _ _ Hc) as [_ Hres].
    rewrite gatherFileSizes_time in Ht. simpl in Ht.
    pose proof (incrementalStage_record E cfg r4 st4 w4) as Hi.
    destruct (incrementalStage E cfg r4 st4 w4) as [w5 st5].
    intros [= <- <-]. simpl in Hi. rewrite Hres in Hi.
    destruct Hi as [Hi|(r' & Hi & HC & Hoff)]; [by left|].
    right. exists r'. split; [done|]. split.
    + intros Hinc. by rewrite (Hoff Hinc).
    + intros Hpkg. rewrite HC, (Hsame Hpkg).
      by rewrite gatherFileSizes_capture.
  - intros [= <- <-]. left.
    pose proof (captureStage_res E cfg
      (gatherFileSizes E cfg (newStats (substring 0 6 (Git.cl_SHA cl))) w3)
      st w3) as H.
    by rewrite Hc in H.
Qed.

(** X6. The stages that are switched off leave their fields at zero: in
    every record the loop adds, the incremental build time is 0 when
    incremental timing is disabled, and the three capture counters are 0
    when no workload is named, for any window and any outcome of the
    external tools. *)
Theorem disabled_stages_stay_zero (E : Env) (cfg : Config)
    (cls : list Git.ChangeList) (idx : list nat) (st : LoopState)
    (w : World) :
  exists rs,
    res (snd (fst (loop E cfg cls idx st w))) = res st ++ rs
    /\ Forall (offStagesAtZero cfg) rs.
Proof.
  revert st w. induction idx as [|i0 idx IH]; intros st w.
  { exists []. simpl. by rewrite app_nil_r. }
  simpl. destruct (iteration E cfg cls i0 st w) as [w1 [e|st1]] eqn:Hit.
  { exists []. simpl. by rewrite app_nil_r. }
  destruct (IH st1 w1) as (rs & Hres & Hall).
  destruct (iteration_offStages _ _ _ _ _ _ _ _ Hit)
    as [Hsame|(r & Hadd & Hr)].
  - exists rs. by rewrite Hres, Hsame.
  - exists (r :: rs). rewrite Hres, Hadd, <- app_assoc. split; [done|].
    by constructor.
Qed.

(** X7. The records of a run follow the processing order and never
    repeat a revision: their short hashes form a subsequence of the
    listing read from its last entry to its first, so at most one record
    per revision and never more records than the window has revisions. *)
Theorem records_follow_processing_order (E : Env) (cfg : Config)
    (cls : list Git.ChangeList) (w : World) :
  let st' := snd (fst (loop E cfg cls (seq 0 (length cls)) emptyState w)) in
  map SHA (res st') `sublist_of` map shortSHA (reverse cls)
  /\ (length (res st') <= length cls)%nat.
Proof.
  intros st'. unfold st'.
  destruct (loop_res E cfg cls (seq 0 (length cls)) emptyState w)
    as (rs & Hres & Hsub & Hlen).
  simpl in Hres. rewrite Hres, revisionsAt_range in *.
  split; [done|]. by rewrite length_seq in Hlen.
Qed.

(** ** The stages of one revision, when they succeed *)

(** X8. When the perturbed rebuild succeeds, the record that is appended
    is the one that entered the stage with its incremental build time set
    to the seconds the rebuild took, and nothing else changed; the world
    is the one the rebuild left, with the watched file written back. *)
Theorem incremental_success_records_time (E : Env) (cfg : Config)
    (cls : list Git.ChangeList) (i0 : nat) (st : LoopState) (w : World)
    (r : stats) (st1 : LoopState) (w3 w4 : World) (fi : File)
    (d : Duration) :
  beforeIncremental E cfg cls i0 st w = Some (r, st1, w3) ->
  incBuild cfg = true ->
  files w3 !! glesAPIPath E cfg = Some fi ->
  canRead E (mode fi) = true ->
  build E cfg (touched E cfg fi w3) = (w4, (d, None)) ->
  iteration E cfg cls i0 st w
  = (fst (Os.WriteFile E (glesAPIPath E cfg) (data fi) (Os.Perm fi) w4),
     inr (appendRes (setIncrementalBuildTime (Seconds d) r) st1)).
Proof.
  intros Hb Hinc Hfi Hrd Hbuild.
  rewrite (iteration_beforeIncremental _ _ _ _ _ _ _ _ _ Hb).
  unfold incrementalStage. rewrite Hinc.
  rewrite (withTouchedGLES_runs E cfg _ r w3 fi Hfi Hrd).
  unfold incrementalBuild. by rewrite Hbuild.
Qed.

Lemma incremental_success_records_time_witness :
  let E := Demo.env Demo.never Demo.never Demo.never "" Demo.never Demo.log3 in
  let cfg := Demo.cfg true "" 1 in
  Seconds 1500000000 = 1.5%float
  /\ exists w' r,
       iteration E cfg (take 1 Demo.log3) 0 Demo.start Demo.world
       = (w', inr (appendRes r Demo.start))
       /\ IncrementalBuildTime r = 1.5%float.
Proof.
  intros E cfg. split; [reflexivity|].
  eexists _, _. split.
  - eapply (incremental_success_records_time E cfg (take 1 Demo.log3) 0
              Demo.start Demo.world _ _ _ _ Demo.glesFile 1500000000).
    + vm_compute. reflexivity.
    + reflexivity.
    + vm_compute. reflexivity.
    + reflexivity.
    + vm_compute. reflexivity.
  - vm_compute. reflexivity.
Defined.

(** The full build succeeds, the rebuild (the second bazel call, after one
    random number was drawn) fails. *)
Lemma rebuild_failure_swallowed_witness :
  let E := Demo.env (fun w => Nat.eqb (rndCalls w) 1) Demo.never Demo.never
             "" Demo.never Demo.log3 in
  let cfg := Demo.cfg true "" 1 in
  exists w' r,
    iteration E cfg (take 1 Demo.log3) 0 Demo.start Demo.world
    = (w', inr (appendRes r Demo.start))
    /\ IncrementalBuildTime r = 0%float.
Proof.
  intros E cfg.
  destruct (rebuild_failure_swallowed E cfg (take 1 Demo.log3) 0 Demo.start
              Demo.world _ _ _ Demo.glesFile "exit status 1"
              ltac:(vm_compute; reflexivity) ltac:(reflexivity)
              ltac:(vm_compute; reflexivity) ltac:(reflexivity)
              ltac:(vm_compute; reflexivity))
    as (w4 & Hit & Htime).
  eexists _, _. split; [exact Hit | exact Htime].
Defined.

Lemma trace_returns_traceFile E cfg w w1 file :
  trace E cfg w = (w1, inr file) -> file = traceFile E.
Proof.
  unfold trace. simpl. destruct (callErr _); [|by intros [= _ <-]].
  by destruct (Os.Remove _ _).
Qed.

(** X10. When the trace is taken and the stats executable runs, the
    revision goes on to the incremental stage with the three counters
    scanned from what the stats executable printed (commands, draws and
    frames each from its own name), the trace file is the fixed file in
    the temporary directory, and its removal is deferred to the end of
    the run. *)
Theorem capture_success_records_counters (E : Env) (cfg : Config)
    (cls : list Git.ChangeList) (i0 : nat) (st : LoopState) (w : World)
    (r : stats) (w2 w3 : World) (file : string) :
  beforeCapture E cfg cls i0 w = Some (r, w2) ->
  pkg cfg <> "" ->
  trace E cfg w2 = (w3, inr file) ->
  callErr (Call E (statsCmd E cfg file) w3) = None ->
  let c := scanCounters (callStdout (Call E (statsCmd E cfg file) w3)) in
  file = traceFile E
  /\ beforeIncremental E cfg cls i0 st w
     = Some (setCaptureStats
               {| Frames := numFrames c; DrawCalls := numDraws c;
                  Commands := numCmds c |} r,
             pushDefer file st,
             fst (callCmd E (statsCmd E cfg file) w3)).
Proof.
  intros Hb Hpkg Htrace Hcall c.
  split; [by eapply trace_returns_traceFile|].
  unfold beforeIncremental, captureStage. apply String.eqb_neq in Hpkg.
  rewrite Hb, Hpkg, Htrace. unfold captureStats. simpl. by rewrite Hcall.
Qed.

Lemma capture_success_records_counters_witness :
  let E := Demo.env Demo.never Demo.never Demo.never
             "Frames: 12 Draws: 5 Commands: 40" Demo.never Demo.log3 in
  let cfg := Demo.cfg false "mygame" 1 in
  exists r st1 w4,
    beforeIncremental E cfg (take 1 Demo.log3) 0 Demo.start Demo.world
    = Some (r, st1, w4)
    /\ CaptureStats r = {| Frames := 12; DrawCalls := 5; Commands := 40 |}
    /\ deferred st1 = ["/tmp/gapid-regres.gfxtrace"].
Proof.
  intros E cfg.
  destruct (capture_success_records_counters E cfg (take 1 Demo.log3) 0
              Demo.start Demo.world _ _ _ "/tmp/gapid-regres.gfxtrace"
              ltac:(vm_compute; reflexivity) ltac:(discriminate)
              ltac:(vm_compute; reflexivity) ltac:(vm_compute; reflexivity))
    as [_ H].
  eexists _, _, _. split; [exact H|]. split; vm_compute; reflexivity.
Defined.

(** ** A failing check-out *)

(** X11. A check-out that fails ends the loop at once with its error: the
    revision is not built, the later revisions of the window are not even
    checked out, and the records gathered so far are what the loop hands
    back.  The only trace of the failed revision is the check-out
    command. *)
Theorem checkout_failure_aborts_loop (E : Env) (cfg : Config)
    (cls : list Git.ChangeList) (idx1 idx2 : list nat) (i0 : nat)
    (st sta : LoopState) (w wa : World) (cl : Git.ChangeList) (e : error) :
  loop E cfg cls idx1 st w = (wa, sta, None) ->
  revisionAt cls i0 = Some cl ->
  gitCheckoutErr E (Git.cl_SHA cl) wa = Some e ->
  loop E cfg cls (idx1 ++ i0 :: idx2) st w
  = (emit (EvCheckout (Git.cl_SHA cl)) wa, sta, Some e).
Proof.
  intros H1 Hcl Herr. rewrite loop_app, H1. simpl.
  unfold iteration. unfold revisionAt in Hcl. rewrite Hcl.
  unfold gitCheckout. by rewrite Herr.
Qed.

Lemma checkout_failure_aborts_loop_witness :
  let E := Demo.env Demo.never Demo.never Demo.never ""
             (String.eqb "bbbbbb2222") Demo.log3 in
  let cfg := Demo.cfg false "" 3 in
  let out := loop E cfg Demo.log3 (seq 0 3) Demo.start Demo.world in
  snd out = Some "pathspec did not match"
  /\ map SHA (res (snd (fst out))) = ["aaaaaa"]
  /\ checkouts (events (fst (fst out))) = ["aaaaaa1111"; "bbbbbb2222"].
Proof.
  intros E cfg out.
  assert (out = (emit (EvCheckout "bbbbbb2222")
                   (fst (fst (loop E cfg Demo.log3 [0%nat] Demo.start
                                Demo.world))),
                 snd (fst (loop E cfg Demo.log3 [0%nat] Demo.start
                             Demo.world)),
                 Some "pathspec did not match")) as ->.
  { apply (checkout_failure_aborts_loop E cfg Demo.log3 [0%nat] [2%nat] 1
             Demo.start _ Demo.world _
             {| Git.cl_SHA := "bbbbbb2222"; Git.Subject := "second" |}).
    - vm_compute. reflexivity.
    - reflexivity.
    - vm_compute. reflexivity. }
  repeat split; vm_compute; reflexivity.
Defined.

(** ** What a run prints *)

Lemma stdout_WriteFile E path d perm w :
  stdout (fst (Os.WriteFile E path d perm w)) = stdout w.
Proof.
  unfold Os.WriteFile. destruct (files w !! path) as [f|]; [|done].
  by destruct (canWrite E (mode f)).
Qed.

Lemma stdout_Remove path w : stdout (fst (Os.Remove path w)) = stdout w.
Proof. unfold Os.Remove. by destruct (files w !! path). Qed.

Lemma stdout_build E cfg w : stdout (fst (build E cfg w)) = stdout w.
Proof. done. Qed.

Lemma stdout_trace E cfg w : stdout (fst (trace E cfg w)) = stdout w.
Proof.
  unfold trace. simpl. destruct (callErr _); simpl; [|done].
  pose proof (stdout_Remove (traceFile E)
    (emit (EvCall (traceCmd E cfg (traceFile E)))
       (withFiles (callFiles (Call E (traceCmd E cfg (traceFile E)) w)) w)))
    as H.
  by destruct (Os.Remove _ _).
Qed.

Lemma stdout_captureStats E cfg file w :
  stdout (fst (captureStats E cfg file w)) = stdout w.
Proof. unfold captureStats. simpl. by destruct (callErr _). Qed.

Lemma stdout_captureStage E cfg r st w :
  stdout (fst (fst (captureStage E cfg r st w))) = stdout w.
Proof.
  unfold captureStage. destruct (String.eqb (pkg cfg) ""); [done|].
  pose proof (stdout_trace E cfg w) as Ht.
  destruct (trace E cfg w) as [w1 [e|file]]; [done|].
  pose proof (stdout_captureStats E cfg file w1) as Hc.
  destruct (captureStats E cfg file w1) as [w2 [c [e|]]]; simpl in *;
    congruence.
Qed.

Lemma stdout_withTouchedGLES {S : Type} E cfg
    (f : S -> World -> S * World * option error) s w :
  (forall s0 w0, stdout (snd (fst (f s0 w0))) = stdout w0) ->
  stdout (snd (fst (withTouchedGLES E cfg f s w))) = stdout w.
Proof.
  intros Hf. unfold withTouchedGLES.
  destruct (Os.Stat _ w) as [e|fi]; [done|].
  destruct (Os.ReadFile E _ w) as [e|d]; [done|]. simpl.
  match goal with |- context [Os.WriteFile E ?p ?x ?m ?v] =>
    pose proof (stdout_WriteFile E p x m v) as H1;
    destruct (Os.WriteFile E p x m v) as [w2 e2] end.
  specialize (Hf s w2). destruct (f s w2) as [[s' w3] r].
  match goal with |- context [Os.WriteFile E ?p ?x ?m ?v] =>
    pose proof (stdout_WriteFile E p x m v) as H2;
    destruct (Os.WriteFile E p x m v) as [w4 e4] end.
  simpl in *. by rewrite H2, Hf, H1.
Qed.

Lemma stdout_incrementalBuild E cfg r w :
  stdout (snd (fst (incrementalBuild E cfg r w))) = stdout w.
Proof.
  unfold incrementalBuild. pose proof (stdout_build E cfg w) as H.
  by destruct (build E cfg w) as [w1 [d [e|]]].
Qed.

Lemma stdout_incrementalStage E cfg r st w :
  stdout (fst (incrementalStage E cfg r st w)) = stdout w.
Proof.
  unfold incrementalStage. destruct (incBuild cfg); [|done].
  pose proof (stdout_withTouchedGLES E cfg (incrementalBuild E cfg) r w
                (stdout_incrementalBuild E cfg)) as H.
  by destruct (withTouchedGLES _ _ _ _ _) as [[r' w1] [e|]].
Qed.

Lemma stdout_gitCheckout E sha w :
  stdout (fst (gitCheckout E sha w)) = stdout w.
Proof. unfold gitCheckout. by destruct (gitCheckoutErr E sha w). Qed.

Lemma stdout_runDeferred ds w : stdout (runDeferred ds w) = stdout w.
Proof.
  unfold runDeferred. revert w.
  induction ds as [|d ds IH]; intros w; [done|]. simpl.
  by rewrite IH, stdout_Remove.
Qed.

Lemma stdout_iteration E cfg cls i0 st w :
  stdout (fst (iteration E cfg cls i0 st w)) = stdout w.
Proof.
  unfold iteration. destruct (cls !! _) as [cl|]; [|done].
  pose proof (stdout_gitCheckout E (Git.cl_SHA cl) w) as Hc.
  destruct (gitCheckout E _ w) as [w1 [e|]]; [done|]. simpl in Hc.
  pose proof (stdout_build E cfg w1) as Hb.
  destruct (build E cfg w1) as [w2 [d [e|]]]; simpl in *; [congruence|].
  match goal with |- context [captureStage E cfg ?r st w2] =>
    pose proof (stdout_captureStage E cfg r st w2) as Hs;
    destruct (captureStage E cfg r st w2) as [[w3 st1] [r1|]] end;
    simpl in *; [|congruence].
  pose proof (stdout_incrementalStage E cfg r1 st1 w3) as Hi.
  destruct (incrementalStage E cfg r1 st1 w3) as [w4 st2]. simpl in *.
  congruence.
Qed.

Lemma stdout_loop E cfg cls idx st w :
  stdout (fst (fst (loop E cfg cls idx st w))) = stdout w.
Proof.
  revert st w. induction idx as [|i0 idx IH]; intros st w; [done|].
  simpl. pose proof (stdout_iteration E cfg cls i0 st w) as Hit.
  destruct (iteration E cfg cls i0 st w) as [w1 [e|st1]]; [done|].
  simpl in Hit. by rewrite IH.
Qed.

Lemma preflight_rooted E cfg w cfg' b :
  preflight E cfg w = inr (cfg', b) ->
  cfg' = cfg \/ exists wd, cfg' = setRoot wd cfg.
Proof.
  unfold preflight. destruct (String.eqb (root cfg) "").
  - destruct (Getwd E w) as [e|wd]; [done|].
    destruct (gitNew E _ w); [done|].
    destruct (gitStatus E w) as [e|[|]]; [done| |done]. simpl.
    destruct (gitCurrentBranch E w) as [e|b']; [done|].
    intros [= <- <-]. right. by exists wd.
  - destruct (gitNew E _ w); [done|].
    destruct (gitStatus E w) as [e|[|]]; [done| |done]. simpl.
    destruct (gitCurrentBranch E w) as [e|b']; [done|].
    intros [= <- <-]. by left.
Qed.

Lemma stdout_gitCheckoutBranch E b w :
  stdout (fst (gitCheckoutBranch E b w)) = stdout w.
Proof. unfold gitCheckoutBranch. by destruct (gitCheckoutBranchErr E b w). Qed.

(** What a run that got to its loop returns and prints, in terms of the
    outcome of the loop. *)
Lemma run_output E cfg w cfg' b cls :
  preflight E cfg w = inr (cfg', b) ->
  gitLogFrom E (atSHA cfg') (count cfg') w = inr cls ->
  let out := loop E cfg' cls (seq 0 (length cls)) emptyState w in
  snd (run E cfg w) = snd out
  /\ stdout (fst (run E cfg w))
     = match snd out with
       | Some _ => stdout w
       | None =>
           (stdout w +:+ separatorLine)
             +:+ tabwriter E (writeTable E cfg' (res (snd (fst out))))
       end.
Proof.
  intros Hpre Hlog out. unfold out, run, runOnBranch, emptyState.
  rewrite Hpre, Hlog.
  pose proof (stdout_loop E cfg' cls (seq 0 (length cls))
                {| res := []; deferred := [] |} w) as Hl.
  destruct (loop E cfg' cls _ _ w) as [[w1 st] [e|]]; cbn [fst snd] in *.
  - pose proof (stdout_gitCheckoutBranch E b (runDeferred (deferred st) w1))
      as Hb.
    destruct (gitCheckoutBranch E b _) as [w2 eb]. cbn [fst snd] in *.
    by rewrite Hb, stdout_runDeferred.
  - match goal with |- context [gitCheckoutBranch E b ?v] =>
      pose proof (stdout_gitCheckoutBranch E b v) as Hb;
      destruct (gitCheckoutBranch E b v) as [w2 eb] end.
    cbn [fst snd] in *. split; [done|].
    rewrite Hb, stdout_runDeferred. simpl. by rewrite Hl.
Qed.

(** X12. A run that returns an error prints nothing, whatever it did
    before; a run that returns nil got through its pre-checks and its
    listing, and adds to the standard output exactly the separator line
    and then the aligned table of the records its loop gathered, written
    at the very end by the deferred flush. *)
Theorem run_prints_report_or_nothing (E : Env) (cfg : Config) (w : World) :
  match snd (run E cfg w) with
  | Some _ => stdout (fst (run E cfg w)) = stdout w
  | None =>
      exists cfg' b cls,
        preflight E cfg w = inr (cfg', b)
        /\ gitLogFrom E (atSHA cfg') (count cfg') w = inr cls
        /\ stdout (fst (run E cfg w))
           = (stdout w +:+ separatorLine)
               +:+ tabwriter E
                     (writeTable E cfg'
                        (res (snd (fst (loop E cfg' cls (seq 0 (length cls))
                                          emptyState w)))))
  end.
Proof.
  destruct (preflight E cfg w) as [e|[cfg' b]] eqn:Hpre.
  { unfold run. by rewrite Hpre. }
  destruct (gitLogFrom E (atSHA cfg') (count cfg') w) as [e|cls] eqn:Hlog.
  { unfold run, runOnBranch. rewrite Hpre, Hlog.
    pose proof (stdout_gitCheckoutBranch E b w) as Hb.
    by destruct (gitCheckoutBranch E b w) as [w2 eb]. }
  destruct (run_output E cfg w cfg' b cls Hpre Hlog) as [Hr Hs].
  rewrite Hr, Hs.
  destruct (snd (loop E cfg' cls (seq 0 (length cls)) emptyState w));
    [done|].
  by exists cfg', b, cls.
Qed.

(** X13. The cleanliness check is strict: when the status of the working
    tree reports local changes, the run returns an error and leaves the
    world exactly as it found it (no check-out, no build, no file written,
    nothing printed), whatever the flags. *)
Theorem dirty_tree_is_never_touched (E : Env) (cfg : Config) (w : World) :
  gitStatus E w = inr false ->
  exists e, run E cfg w = (w, Some e).
Proof.
  intros Hdirty. unfold run, preflight. rewrite Hdirty.
  destruct (String.eqb (root cfg) "").
  - destruct (Getwd E w) as [e|wd]; [by eauto|].
    destruct (gitNew E _ w); by eauto.
  - destruct (gitNew E _ w); by eauto.
Qed.

Lemma dirty_tree_is_never_touched_witness :
  run dirtyEnv (Demo.cfg true "mygame" 3) Demo.world
  = (Demo.world,
     Some "Local changes found. Please submit any changes and run again").
Proof.
  destruct (dirty_tree_is_never_touched dirtyEnv (Demo.cfg true "mygame" 3)
              Demo.world ltac:(reflexivity)) as [e He].
  rewrite He. f_equal.
  assert (snd (run dirtyEnv (Demo.cfg true "mygame" 3) Demo.world)
          = Some "Local changes found. Please submit any changes and run again")
    as Hs by (vm_compute; reflexivity).
  rewrite He in Hs. exact Hs.
Defined.

(** ** The deferred removals *)









(** ** The flag -out *)

Lemma loop_setOutput E cfg o cls idx st w :
  loop E (setOutput o cfg) cls idx st w = loop E cfg cls idx st w.
Proof.
  revert st w. induction idx as [|i0 idx IH]; intros st w; [done|].
  simpl.
  change (iteration E (setOutput o cfg) cls i0 st w)
    with (iteration E cfg cls i0 st w).
  destruct (iteration E cfg cls i0 st w) as [w1 [e|st1]]; [done|]. apply IH.
Qed.

Lemma runOnBranch_setOutput E cfg o w :
  runOnBranch E (setOutput o cfg) w = runOnBranch E cfg w.
Proof.
  unfold runOnBranch. simpl.
  destruct (gitLogFrom E (atSHA cfg) (count cfg) w) as [e|cls]; [done|].
  by rewrite loop_setOutput.
Qed.

Lemma preflight_setOutput E cfg o w :
  preflight E (setOutput o cfg) w =
  match preflight E cfg w with
  | inl e => inl e
  | inr (c, b) => inr (setOutput o c, b)
  end.
Proof.
  unfold preflight.
  change (root (setOutput o cfg)) with (root cfg).
  destruct (String.eqb (root cfg) "").
  - destruct (Getwd E w) as [e|wd]; [done|].
    change (root (setRoot wd (setOutput o cfg))) with wd.
    change (root (setRoot wd cfg)) with wd.
    destruct (gitNew E wd w); [done|].
    destruct (gitStatus E w) as [e|[|]]; [done| |done]. cbn [negb].
    by destruct (gitCurrentBranch E w) as [e|b].
  - change (root (setOutput o cfg)) with (root cfg).
    destruct (gitNew E (root cfg) w); [done|].
    destruct (gitStatus E w) as [e|[|]]; [done| |done]. cbn [negb].
    by destruct (gitCurrentBranch E w) as [e|b].
Qed.

(** X15. The flag [-out] changes nothing: whatever file it names, the run
    does the same things, prints the same report on the standard output
    and returns the same result. *)
Theorem output_flag_is_ignored (E : Env) (cfg : Config) (o : string)
    (w : World) :
  run E (setOutput o cfg) w = run E cfg w.
Proof.
  unfold run. rewrite preflight_setOutput.
  destruct (preflight E cfg w) as [e|[c b]]; [done|].
  by rewrite runOnBranch_setOutput.
Qed.

(** ** What the callback of the perturbation cycle sees *)

(** X16. The callback of [withTouchedGLES] runs on the watched file with
    one fake command appended to its bytes and its mode unchanged.  When
    the file may not be written the failed write goes unnoticed: the
    callback still runs, on the file as it was, and the cycle reports no
    error. *)
Theorem callback_sees_perturbed_file (E : Env) (cfg : Config) (w : World)
    (fi : File) :
  files w !! glesAPIPath E cfg = Some fi ->
  canRead E (mode fi) = true ->
  let out :=
    withTouchedGLES E cfg (observeFile (glesAPIPath E cfg)) None w in
  fst (fst out)
  = Some (if canWrite E (mode fi)
          then {| data := data fi +:+ fakeCommand (rndStream E (rndCalls w));
                  mode := mode fi |}
          else fi)
  /\ snd out = None.
Proof.
  intros Hfi Hrd out. unfold out.
  rewrite (withTouchedGLES_runs E cfg _ None w fi Hfi Hrd).
  unfold observeFile. cbv beta iota. cbn [fst snd]. split; [|done].
  unfold touched. simpl. by apply WriteFile_existing.
Qed.

Lemma callback_sees_perturbed_file_witness :
  let E := Demo.env Demo.never Demo.never Demo.never "" Demo.never Demo.log3 in
  fst (fst (withTouchedGLES E (Demo.cfg true "" 1)
              (observeFile "/src/gapis/api/gles/gles.api") None Demo.world))
  = Some {| data := "api gles" +:+ NL +:+ "cmd void fake_cmd_4000() {}" +:+ NL;
            mode := 420 |}.
Proof.
  intros E.
  destruct (callback_sees_perturbed_file E (Demo.cfg true "" 1) Demo.world
              Demo.glesFile ltac:(reflexivity) ltac:(reflexivity))
    as [H _].
  exact H.
Defined.

(** ** The columns of the table *)

Lemma countChar_app c a b :
  countChar c (a +:+ b) = (countChar c a + countChar c b)%nat.
Proof.
  induction a as [|x a IH]; [done|]. rewrite append_cons. simpl.
  rewrite IH. lia.
Qed.

Lemma string_of_uint_no_tab d :
  countChar tabChar (NilEmpty.string_of_uint d) = 0%nat.
Proof. induction d; simpl; by rewrite ?IHd. Qed.

Lemma formatInt_no_tab z : countChar tabChar (formatInt z) = 0%nat.
Proof.
  unfold formatInt. destruct (Z.to_int z); simpl;
    by rewrite string_of_uint_no_tab.
Qed.

(** X17. Every row of the table has as many cells as the header, for each
    of the four combinations of [-inc] and [-pkg]: nine size columns, one
    more with incremental timing, three more with a workload.  (The short
    hash and the printed time must not themselves contain a tab.) *)
Theorem rows_have_the_cells_of_the_header (E : Env) (cfg : Config)
    (r : stats) :
  cellsAfterFirst (SHA r) = 0%nat ->
  cellsAfterFirst (formatFloat E (IncrementalBuildTime r)) = 0%nat ->
  cellsAfterFirst (rowText E cfg r) = cellsAfterFirst (writeHeader cfg "")
  /\ cellsAfterFirst (rowText E cfg r)
     = (9 + (if incBuild cfg then 1 else 0)
          + (if String.eqb (pkg cfg) "" then 0 else 3))%nat.
Proof.
  unfold cellsAfterFirst. intros Hsha Hfloat.
  unfold rowText, writeHeader, rowCell, headerCell.
  destruct (incBuild cfg), (String.eqb (pkg cfg) "");
    rewrite !countChar_app, ?formatInt_no_tab, ?Hsha, ?Hfloat;
    simpl; split; reflexivity.
Qed.

Lemma rows_have_the_cells_of_the_header_witness :
  let E := Demo.env Demo.never Demo.never Demo.never "" Demo.never Demo.log3 in
  cellsAfterFirst (rowText E (Demo.cfg true "mygame" 1) (newStats "aaaaaa"))
  = 13%nat
  /\ cellsAfterFirst (writeHeader (Demo.cfg true "mygame" 1) "") = 13%nat.
Proof.
  intros E.
  destruct (rows_have_the_cells_of_the_header E (Demo.cfg true "mygame" 1)
              (newStats "aaaaaa") ltac:(reflexivity) ltac:(reflexivity))
    as [H1 H2].
  split; [exact H2|]. rewrite <- H1. exact H2.
Defined.

(** ** The printed table and the revisions that failed to build *)

Lemma string_of_uint_no_nl d :
  countChar nlChar (NilEmpty.string_of_uint d) = 0%nat.
Proof. induction d; simpl; by rewrite ?IHd. Qed.

Lemma formatInt_no_nl z : countChar nlChar (formatInt z) = 0%nat.
Proof.
  unfold formatInt. destruct (Z.to_int z); simpl;
    by rewrite string_of_uint_no_nl.
Qed.

Lemma writeHeader_one_line cfg : countChar nlChar (writeHeader cfg "") = 1%nat.
Proof.
  unfold writeHeader, headerCell.
  destruct (incBuild cfg), (String.eqb (pkg cfg) ""); reflexivity.
Qed.

(** A row is one line, when the hash and the printed time are. *)
Lemma rowText_one_line E cfg r :
  countChar nlChar (SHA r) = 0%nat ->
  countChar nlChar (formatFloat E (IncrementalBuildTime r)) = 0%nat ->
  countChar nlChar (rowText E cfg r) = 1%nat.
Proof.
  intros Hsha Hfloat. unfold rowText, rowCell.
  destruct (incBuild cfg), (String.eqb (pkg cfg) "");
    rewrite !countChar_app, ?formatInt_no_nl, ?Hsha, ?Hfloat; reflexivity.
Qed.

Lemma rows_line_count E cfg rs :
  Forall (fun r => countChar nlChar (SHA r) = 0%nat
                   /\ countChar nlChar
                        (formatFloat E (IncrementalBuildTime r)) = 0%nat) rs ->
  countChar nlChar (String.concat "" (map (rowText E cfg) rs)) = length rs.
Proof.
  induction 1 as [|r rs [Hsha Hfloat] _ IH]; [done|].
  cbn [map]. rewrite concat_cons, countChar_app, IH.
  by rewrite (rowText_one_line E cfg r Hsha Hfloat).
Qed.

Lemma endsWith_app q a b : endsWith q b -> endsWith q (a +:+ b).
Proof. intros [t ->]. exists (a +:+ t). by rewrite append_assoc. Qed.

(** A row begins with the short hash of its record and a comma, and ends
    with a newline. *)
Lemma rowText_shape E cfg r :
  beginsWith (SHA r +:+ ",") (rowText E cfg r)
  /\ endsWith NL (rowText E cfg r).
Proof.
  unfold rowText. split.
  - eexists. reflexivity.
  - repeat apply endsWith_app. by exists "".
Qed.

(** C7. A revision whose full build fails adds no record: the iteration
    ends with the list of records it began with.  So when the loop runs to
    its end it holds strictly fewer records than the window has revisions,
    and the short hashes of the records follow the processing order of the
    other revisions of the window.  When this loop is the loop of a run,
    the run returns nil and what it prints is the separator line and then
    the aligned table, whose text is the header followed by exactly one
    row for each surviving record, in the order of the records: each row
    begins with the short hash of its record and ends its line, and the
    table has one line more than there are records. *)
Theorem build_failure_contributes_no_record (E : Env) (cfg : Config)
    (cls : list Git.ChangeList) (idx1 idx2 : list nat) (i0 : nat)
    (st sta st' : LoopState) (w wa w1 w' : World) (cl : Git.ChangeList)
    (e : error) :
  loop E cfg cls idx1 st w = (wa, sta, None) ->
  revisionAt cls i0 = Some cl ->
  gitCheckout E (Git.cl_SHA cl) wa = (w1, None) ->
  snd (snd (build E cfg w1)) = Some e ->
  loop E cfg cls (idx1 ++ i0 :: idx2) st w = (w', st', None) ->
  iteration E cfg cls i0 sta wa = (fst (build E cfg w1), inr sta)
  /\ (length (res st') < length (res st) + length (idx1 ++ i0 :: idx2))%nat
  /\ (exists rs,
        res st' = res st ++ rs
        /\ map SHA rs `sublist_of` map shortSHA (revisionsAt cls (idx1 ++ idx2)))
  /\ (forall cfg0 b,
        preflight E cfg0 w = inr (cfg, b) ->
        gitLogFrom E (atSHA cfg) (count cfg) w = inr cls ->
        st = emptyState ->
        idx1 ++ i0 :: idx2 = seq 0 (length cls) ->
        snd (run E cfg0 w) = None
        /\ stdout (fst (run E cfg0 w))
           = (stdout w +:+ separatorLine)
               +:+ tabwriter E
                     (writeHeader cfg ""
                        +:+ String.concat "" (map (rowText E cfg) (res st'))))
  /\ length (map (rowText E cfg) (res st')) = length (res st')
  /\ Forall (fun r => beginsWith (SHA r +:+ ",") (rowText E cfg r)
                      /\ endsWith NL (rowText E cfg r)) (res st')
  /\ (Forall (fun r => countChar nlChar (SHA r) = 0%nat
                       /\ countChar nlChar
                            (formatFloat E (IncrementalBuildTime r)) = 0%nat)
             (res st') ->
      countChar nlChar
        (writeHeader cfg ""
           +:+ String.concat "" (map (rowText E cfg) (res st')))
      = S (length (res st'))).
Proof.
  intros H1 Hcl Hco Hb Hall.
  pose proof (iteration_build_failure E cfg cls i0 sta wa cl w1 e Hcl Hco Hb)
    as Hit.
  split; [exact Hit|].
  pose proof Hall as Hloop.
  rewrite loop_app, H1 in Hall. simpl in Hall. rewrite Hit in Hall.
  destruct (loop_res E cfg cls idx1 st w) as (rs1 & Hr1 & Hs1 & Hl1).
  rewrite H1 in Hr1. simpl in Hr1.
  destruct (loop_res E cfg cls idx2 sta (fst (build E cfg w1)))
    as (rs2 & Hr2 & Hs2 & Hl2).
  rewrite Hall in Hr2. simpl in Hr2.
  assert (res st' = res st ++ rs1 ++ rs2) as Hres.
  { by rewrite Hr2, Hr1, <- app_assoc. }
  split.
  { rewrite Hres, !length_app. simpl. lia. }
  split.
  { exists (rs1 ++ rs2). split; [exact Hres|].
    unfold revisionsAt in *. rewrite omap_app, !map_app.
    by apply sublist_app. }
  split.
  { intros cfg0 b Hpre Hlog -> Hidx.
    destruct (run_output E cfg0 w cfg b cls Hpre Hlog) as [Hr Hs].
    rewrite <- Hidx, Hloop in Hr, Hs. cbn [fst snd] in Hr, Hs.
    split; [exact Hr|]. by rewrite Hs, writeTable_rows. }
  split; [apply length_map|].
  split.
  { apply Forall_forall. intros r _. apply rowText_shape. }
  intros Hlines.
  rewrite countChar_app, writeHeader_one_line.
  by rewrite (rows_line_count E cfg (res st') Hlines).
Qed.

(** A run over a window of three whose middle revision does not build: two
    records, oldest first, and a printed table of two rows. *)
Lemma build_failure_contributes_no_record_witness :
  let E := Demo.env
             (fun w => match head w with
                       | Git.Detached "bbbbbb2222" => true
                       | _ => false
                       end)
             Demo.never Demo.never "" Demo.never Demo.log3 in
  let cfg := Demo.cfg false "" 3 in
  let st' := snd (fst (loop E cfg Demo.log3 (seq 0 3) emptyState Demo.world)) in
  map SHA (res st') = ["aaaaaa"; "cccccc"]
  /\ (length (res st') < 3)%nat
  /\ snd (run E cfg Demo.world) = None
  /\ stdout (fst (run E cfg Demo.world))
     = separatorLine
         +:+ writeHeader cfg ""
         +:+ String.concat "" (map (rowText E cfg) (res st'))
  /\ countChar nlChar (stdout (fst (run E cfg Demo.world))) = 4%nat.
Proof.
  intros E cfg st'. split; [vm_compute; reflexivity|].
  destruct (build_failure_contributes_no_record E cfg Demo.log3
              [0%nat] [2%nat] 1 emptyState _ st' Demo.world _ _
              (fst (fst (loop E cfg Demo.log3 (seq 0 3) emptyState
                           Demo.world)))
              {| Git.cl_SHA := "bbbbbb2222"; Git.Subject := "second" |}
              "exit status 1"
              ltac:(vm_compute; reflexivity) ltac:(reflexivity)
              ltac:(vm_compute; reflexivity) ltac:(vm_compute; reflexivity)
              ltac:(vm_compute; reflexivity))
    as (_ & Hlen & _ & Hrun & _ & _ & _).
  destruct (Hrun cfg "master" ltac:(reflexivity) ltac:(reflexivity)
              ltac:(reflexivity) ltac:(reflexivity)) as [Hnil Hout].
  split; [exact Hlen|]. split; [exact Hnil|].
  rewrite Hout. split; vm_compute; reflexivity.
Defined.
